(** * connexion/json_schema.py: reference resolution and keyword validators

    A shallow embedding of [connexion/json_schema.py].

    - Part I embeds the keyword handlers ([validate_type], [validate_enum],
      [validate_required], [validate_readOnly], [validate_writeOnly],
      [validate_oneOf], [validate_allOf], [validate_properties]) and the two
      validator classes built with [extend].  Instances and schemas are JSON
      trees; a generator is the list of errors it yields together with the
      exception that ended it, if any.
    - Part II embeds [resolve_refs].  [_do_resolve] rewrites Python objects in
      place, so documents live in a heap of mutable dicts and lists and
      values are scalars or heap locations.

    Numbers are integers throughout (JSON floats are left out), and the keys
    of a mapping are strings, kept in insertion order. *)

From Stdlib Require Import ZArith String Ascii List Bool Lia Permutation.
From stdpp Require Import base list strings.

Local Open Scope string_scope.
Local Open Scope list_scope.

(* ===================================================================== *)
(** * Part I: JSON values and the Python operations used on them          *)
(* ===================================================================== *)

Unset Elimination Schemes.
Inductive json : Type :=
| JNull
| JBool (b : bool)
| JInt (n : Z)
| JStr (s : string)
| JList (items : list json)
| JDict (items : list (string * json)).
Set Elimination Schemes.

(** A Python [dict] with string keys, in insertion order. *)
Definition dict : Type := list (string * json).

(** Exceptions the modelled code can raise. *)
Inductive exn : Type :=
| TypeError
| AttributeError
| KeyError
| ValueError
| RuntimeError
| RecursionError
| UnknownType (type : json)
| RefResolutionError (ref : string).

Inductive result (A : Type) : Type :=
| Ok (a : A)
| Raise (e : exn).
Arguments Ok {A} a.
Arguments Raise {A} e.

(** [d.get(k)] is [None] when the key is absent. *)
Fixpoint dict_find {A : Type} (k : string) (d : list (string * A)) : option A :=
  match d with
  | [] => None
  | (k', v) :: d' => if String.eqb k k' then Some v else dict_find k d'
  end.

Definition py_get (d : dict) (k : string) : json :=
  match dict_find k d with
  | Some v => v
  | None => JNull
  end.

Definition dict_has {A : Type} (k : string) (d : list (string * A)) : bool :=
  match dict_find k d with
  | Some _ => true
  | None => false
  end.

(** [d[k] = v]: an existing key keeps its position, a new key goes last. *)
Fixpoint dict_set {A : Type} (k : string) (v : A) (d : list (string * A))
  : list (string * A) :=
  match d with
  | [] => [(k, v)]
  | (k', v') :: d' =>
      if String.eqb k k' then (k', v) :: d' else (k', v') :: dict_set k v d'
  end.

(** [del d[k]]. *)
Fixpoint dict_del {A : Type} (k : string) (d : list (string * A))
  : list (string * A) :=
  match d with
  | [] => []
  | (k', v') :: d' =>
      if String.eqb k k' then d' else (k', v') :: dict_del k d'
  end.

(** [d.update(other)] for a mapping [other]. *)
Definition dict_update {A : Type} (d other : list (string * A))
  : list (string * A) :=
  fold_left (fun acc kv => dict_set (fst kv) (snd kv) acc) other d.

Definition is_None (v : json) : bool :=
  match v with JNull => true | _ => false end.

(** [v is True]. *)
Definition is_True (v : json) : bool :=
  match v with JBool true => true | _ => false end.

(** Python truthiness, [bool(v)]. *)
Definition truthy (v : json) : bool :=
  match v with
  | JNull => false
  | JBool b => b
  | JInt n => negb (Z.eqb n 0)
  | JStr s => negb (String.eqb s "")
  | JList l => match l with [] => false | _ => true end
  | JDict d => match d with [] => false | _ => true end
  end.

(** Python [==] on JSON values: [True == 1], lists compare in order and
    mappings compare as sets of items. *)
Fixpoint py_eq (a b : json) {struct a} : bool :=
  match a, b with
  | JNull, JNull => true
  | JBool x, JBool y => Bool.eqb x y
  | JBool x, JInt n => Z.eqb (Z.b2z x) n
  | JInt n, JBool x => Z.eqb n (Z.b2z x)
  | JInt n, JInt m => Z.eqb n m
  | JStr s, JStr t => String.eqb s t
  | JList xs, JList ys =>
      (fix go (xs ys : list json) {struct xs} : bool :=
         match xs, ys with
         | [], [] => true
         | x :: xs', y :: ys' => py_eq x y && go xs' ys'
         | _, _ => false
         end) xs ys
  | JDict xs, JDict ys =>
      Nat.eqb (length xs) (length ys) &&
      (fix go (xs : list (string * json)) {struct xs} : bool :=
         match xs with
         | [] => true
         | (k, v) :: xs' =>
             match dict_find k ys with
             | Some w => py_eq v w && go xs'
             | None => false
             end
         end) xs
  | _, _ => false
  end.

Fixpoint chars (s : string) : list string :=
  match s with
  | EmptyString => []
  | String c s' => String c EmptyString :: chars s'
  end.

(** What [for x in v] runs over: the elements of a list, the characters of
    a string, the keys of a mapping; anything else is not iterable. *)
Definition py_iter (v : json) : result (list json) :=
  match v with
  | JList l => Ok l
  | JStr s => Ok (map JStr (chars s))
  | JDict d => Ok (map (fun kv => JStr (fst kv)) d)
  | _ => Raise TypeError
  end.

Definition is_substring (t s : string) : bool :=
  match String.index 0 t s with Some _ => true | None => false end.

(** [x in container]. *)
Definition py_contains (container x : json) : result bool :=
  match container with
  | JList l => Ok (existsb (py_eq x) l)
  | JDict d =>
      match x with
      | JStr k => Ok (dict_has k d)
      | JList _ | JDict _ => Raise TypeError
      | _ => Ok false
      end
  | JStr s =>
      match x with
      | JStr t => Ok (is_substring t s)
      | _ => Raise TypeError
      end
  | _ => Raise TypeError
  end.

(** [obj.get(key)] on an arbitrary value: only mappings have [get]. *)
Definition attr_get (obj key : json) : result json :=
  match obj with
  | JDict d =>
      match key with
      | JStr k => Ok (py_get d k)
      | JList _ | JDict _ => Raise TypeError
      | _ => Ok JNull
      end
  | _ => Raise AttributeError
  end.

(** [obj[key]] on a mapping. *)
Definition py_getitem (obj : json) (key : string) : result json :=
  match obj with
  | JDict d =>
      match dict_find key d with
      | Some v => Ok v
      | None => Raise KeyError
      end
  | _ => Raise TypeError
  end.

(** The key/value pairs [d.update(other)] inserts, in order, and the
    exception that stops it.  A mapping gives its items.  Any other iterable
    must yield two-element sequences; a pair whose key is not a string has
    no place in a JSON mapping and is reported as [TypeError] here. *)
Definition pair_of (e : json) : result (string * json) :=
  match e with
  | JList [JStr k; v] => Ok (k, v)
  | JList [_; _] => Raise TypeError
  | JStr (String a (String b EmptyString)) =>
      Ok (String a EmptyString, JStr (String b EmptyString))
  | JDict [(k1, _); (k2, _)] => Ok (k1, JStr k2)
  | JList _ | JStr _ | JDict _ => Raise ValueError
  | _ => Raise TypeError
  end.

Fixpoint pairs_of (es : list json) : list (string * json) * option exn :=
  match es with
  | [] => ([], None)
  | e :: es' =>
      match pair_of e with
      | Ok kv => let '(kvs, r) := pairs_of es' in (kv :: kvs, r)
      | Raise x => ([], Some x)
      end
  end.

Definition py_update (d : dict) (other : json) : result dict :=
  match other with
  | JDict o => Ok (dict_update d o)
  | _ =>
      match py_iter other with
      | Raise x => Raise x
      | Ok es =>
          match pairs_of es with
          | (kvs, None) => Ok (dict_update d kvs)
          | (_, Some x) => Raise x
          end
      end
  end.

(* ===================================================================== *)
(** * Validation errors and generators                                     *)
(* ===================================================================== *)

(** An element of [error.path] or [error.schema_path]. *)
Inductive path_elem : Type :=
| Key (k : string)
| Index (i : nat).

(** The text of an error, kept as its format and arguments. *)
Inductive message : Type :=
| types_msg (instance : json) (types : list json)
    (* "%r is not of type %s" *)
| not_one_of (instance enums : json)
    (* "%r is not one of %r" *)
| is_a_required_property (prop : json)
    (* "%r is a required property" *)
| property_is_read_only
    (* "Property is read-only" *)
| property_is_write_only
    (* "Property is write-only" *)
| not_valid_under_any (instance : json)
    (* "%r is not valid under any of the given schemas" *)
| valid_under_each (instance : json) (schemas : list json)
    (* "%r is valid under each of %s" *)
| false_schema (instance : json)
    (* "False schema does not allow %r" *)
| library_message (text : string).

Unset Elimination Schemes.
Inductive ValidationError : Type :=
  mkError {
    err_message : message;
    err_path : list path_elem;
    err_schema_path : list path_elem;
    err_context : list ValidationError
  }.
Set Elimination Schemes.

(** [ValidationError(msg, context=ctx)]. *)
Definition new_error (msg : message) (ctx : list ValidationError)
  : ValidationError :=
  mkError msg [] [] ctx.

(** What a generator did: the errors it yielded, then how it stopped. *)
Record gen : Type := Gen {
  yielded : list ValidationError;
  raised : option exn
}.

Definition done : gen := Gen [] None.
Definition yield (e : ValidationError) : gen := Gen [e] None.
Definition throw (x : exn) : gen := Gen [] (Some x).

(** Run [g1], then [g2] unless [g1] raised. *)
Definition gen_seq (g1 g2 : gen) : gen :=
  match raised g1 with
  | Some _ => g1
  | None => Gen (yielded g1 ++ yielded g2) (raised g2)
  end.

Definition gen_map (f : ValidationError -> ValidationError) (g : gen) : gen :=
  Gen (map f (yielded g)) (raised g).

(** [for x in xs: yield from body(x)]. *)
Fixpoint gen_for {A : Type} (xs : list A) (body : A -> gen) : gen :=
  match xs with
  | [] => done
  | x :: xs' => gen_seq (body x) (gen_for xs' body)
  end.

Definition gen_try {A : Type} (r : result A) (k : A -> gen) : gen :=
  match r with
  | Ok a => k a
  | Raise x => throw x
  end.

(** [list(g)]. *)
Definition gen_list (g : gen) : result (list ValidationError) :=
  match raised g with
  | None => Ok (yielded g)
  | Some x => Raise x
  end.

(** [enumerate(xs)]. *)
Fixpoint enumerate_from {A : Type} (i : nat) (xs : list A) : list (nat * A) :=
  match xs with
  | [] => []
  | x :: xs' => (i, x) :: enumerate_from (S i) xs'
  end.

Definition enumerate {A : Type} (xs : list A) : list (nat * A) :=
  enumerate_from 0 xs.

(* ===================================================================== *)
(** * The validator object (jsonschema's interface)                        *)
(* ===================================================================== *)

(** What a handler sees of its [validator] argument: the registered keywords
    ([validator.VALIDATORS]) and [iter_errors], from which jsonschema derives
    [descend] and [is_valid]. *)
Record Validator : Type := {
  VALIDATORS : list string;
  iter_errors : json -> json -> gen
}.

Definition registered (validator : Validator) (keyword : string) : bool :=
  existsb (String.eqb keyword) (VALIDATORS validator).

Definition prepend_path (p : option path_elem) (e : ValidationError)
  : ValidationError :=
  match p with
  | Some x =>
      mkError (err_message e) (x :: err_path e) (err_schema_path e)
              (err_context e)
  | None => e
  end.

Definition prepend_schema_path (p : option path_elem) (e : ValidationError)
  : ValidationError :=
  match p with
  | Some x =>
      mkError (err_message e) (err_path e) (x :: err_schema_path e)
              (err_context e)
  | None => e
  end.

(** [validator.descend(instance, schema, path=..., schema_path=...)]. *)
Definition descend (validator : Validator) (instance schema : json)
    (path schema_path : option path_elem) : gen :=
  gen_map (fun e => prepend_schema_path schema_path (prepend_path path e))
          (iter_errors validator instance schema).

(** [validator.is_valid(instance, schema)]: only the first error is asked
    for, [next(self.iter_errors(instance, schema), None) is None]. *)
Definition is_valid (validator : Validator) (instance schema : json)
  : result bool :=
  match iter_errors validator instance schema with
  | Gen (_ :: _) _ => Ok false
  | Gen [] None => Ok true
  | Gen [] (Some x) => Raise x
  end.

(** [validator.is_type(instance, type)] with the Draft 4 type checker, which
    [extend] leaves in place. *)
Definition is_type (instance type : json) : result bool :=
  match type with
  | JStr t =>
      if String.eqb t "array" then
        Ok (match instance with JList _ => true | _ => false end)
      else if String.eqb t "boolean" then
        Ok (match instance with JBool _ => true | _ => false end)
      else if String.eqb t "integer" then
        Ok (match instance with JInt _ => true | _ => false end)
      else if String.eqb t "null" then
        Ok (is_None instance)
      else if String.eqb t "number" then
        Ok (match instance with JInt _ => true | _ => false end)
      else if String.eqb t "object" then
        Ok (match instance with JDict _ => true | _ => false end)
      else if String.eqb t "string" then
        Ok (match instance with JStr _ => true | _ => false end)
      else Raise (UnknownType type)
  | JList _ | JDict _ => Raise TypeError
  | _ => Raise (UnknownType type)
  end.

(** [_utils.ensure_list]. *)
Definition ensure_list (thing : json) : json :=
  match thing with
  | JStr _ => JList [thing]
  | _ => thing
  end.

(** [any(validator.is_type(instance, type) for type in types)]: stops at the
    first match. *)
Fixpoint any_is_type (instance : json) (types : list json) : result bool :=
  match types with
  | [] => Ok false
  | t :: ts =>
      match is_type instance t with
      | Ok true => Ok true
      | Ok false => any_is_type instance ts
      | Raise x => Raise x
      end
  end.

(* ===================================================================== *)
(** * The keyword handlers of json_schema.py                               *)
(* ===================================================================== *)

(** The test shared by [validate_type], [validate_enum], [validate_oneOf]
    and [validate_properties]:
    [instance is None and (schema.get('x-nullable') is True
                           or schema.get('nullable'))]. *)
Definition nullable_short_circuit (instance : json) (schema : dict) : bool :=
  is_None instance &&
  (is_True (py_get schema "x-nullable") || truthy (py_get schema "nullable")).

Definition validate_type (validator : Validator) (types instance : json)
    (schema : dict) : gen :=
  if nullable_short_circuit instance schema then done
  else
    gen_try (py_iter (ensure_list types)) (fun ts =>
    gen_try (any_is_type instance ts) (fun found =>
    if found then done
    else yield (new_error (types_msg instance ts) []))).

Definition validate_enum (validator : Validator) (enums instance : json)
    (schema : dict) : gen :=
  if nullable_short_circuit instance schema then done
  else
    gen_try (py_contains enums instance) (fun found =>
    if found then done
    else yield (new_error (not_one_of instance enums) [])).

(** The three [continue] tests of [validate_required], in order; each
    [subschema.get] runs only when its keyword is registered. *)
Definition required_exempt (validator : Validator) (subschema : json)
  : result bool :=
  match (if registered validator "readOnly"
         then attr_get subschema (JStr "readOnly") else Ok JNull) with
  | Raise x => Raise x
  | Ok ro =>
      if registered validator "readOnly" && truthy ro then Ok true
      else
        match (if registered validator "writeOnly"
               then attr_get subschema (JStr "writeOnly") else Ok JNull) with
        | Raise x => Raise x
        | Ok wo =>
            if registered validator "writeOnly" && truthy wo then Ok true
            else
              match (if registered validator "x-writeOnly"
                     then attr_get subschema (JStr "x-writeOnly")
                     else Ok JNull) with
              | Raise x => Raise x
              | Ok xwo =>
                  Ok (registered validator "x-writeOnly" && is_True xwo)
              end
        end
  end.

(** The body of [for prop in required] for one [prop]. *)
Definition required_prop (validator : Validator) (instance : json)
    (schema : dict) (prop : json) : gen :=
  gen_try (py_contains instance prop) (fun present =>
  if present then done
  else
    let properties := py_get schema "properties" in
    let missing := yield (new_error (is_a_required_property prop) []) in
    if is_None properties then missing
    else
      gen_try (attr_get properties prop) (fun subschema =>
      if is_None subschema then missing
      else
        gen_try (required_exempt validator subschema) (fun exempt =>
        if exempt then done else missing))).

Definition validate_required (validator : Validator) (required instance : json)
    (schema : dict) : gen :=
  gen_try (is_type instance (JStr "object")) (fun is_object =>
  if negb is_object then done
  else
    gen_try (py_iter required) (fun props =>
    gen_for props (required_prop validator instance schema))).

Definition validate_readOnly (validator : Validator) (ro instance : json)
    (schema : dict) : gen :=
  yield (new_error property_is_read_only []).

Definition validate_writeOnly (validator : Validator) (wo instance : json)
    (schema : dict) : gen :=
  yield (new_error property_is_write_only []).

(** The first loop of [validate_oneOf]: consumes the enumeration up to and
    including the first subschema without errors.  The result is
    [all_errors], the match ([first_valid]) if the loop hit [break], and
    what is left of the enumeration. *)
Fixpoint oneOf_first (validator : Validator) (instance : json)
    (subschemas : list (nat * json)) (all_errors : list ValidationError)
  : result (list ValidationError * option json * list (nat * json)) :=
  match subschemas with
  | [] => Ok (all_errors, None, [])
  | (index, subschema) :: rest =>
      match gen_list (descend validator instance subschema None
                              (Some (Index index))) with
      | Raise x => Raise x
      | Ok [] => Ok (all_errors, Some subschema, rest)
      | Ok errs => oneOf_first validator instance rest (all_errors ++ errs)
      end
  end.

(** [[s for i, s in subschemas if validator.is_valid(instance, s)]]. *)
Fixpoint oneOf_more (validator : Validator) (instance : json)
    (subschemas : list (nat * json)) : result (list json) :=
  match subschemas with
  | [] => Ok []
  | (_, s) :: rest =>
      match is_valid validator instance s with
      | Raise x => Raise x
      | Ok b =>
          match oneOf_more validator instance rest with
          | Raise x => Raise x
          | Ok more => Ok (if b then s :: more else more)
          end
      end
  end.

Definition validate_oneOf (validator : Validator) (oneOf instance : json)
    (schema : dict) : gen :=
  if nullable_short_circuit instance schema then done
  else
    gen_try (py_iter oneOf) (fun items =>
    gen_try (oneOf_first validator instance (enumerate items) []) (fun r =>
    match r with
    | (all_errors, None, rest) =>
        (* the [else] of the loop; the enumeration is exhausted *)
        gen_seq (yield (new_error (not_valid_under_any instance) all_errors))
          (gen_try (oneOf_more validator instance rest) (fun more_valid =>
           match more_valid with
           | [] => done
           | _ => throw RuntimeError (* first_valid is unbound *)
           end))
    | (_, Some first_valid, rest) =>
        gen_try (oneOf_more validator instance rest) (fun more_valid =>
        match more_valid with
        | [] => done
        | _ =>
            yield (new_error
                     (valid_under_each instance (more_valid ++ [first_valid]))
                     [])
        end)
    end)).

(** The loop of [validate_allOf]; [schema] is the local dict that each
    subschema is merged into before the instance descends into it. *)
Fixpoint allOf_loop (validator : Validator) (instance : json)
    (subschemas : list (nat * json)) (schema : dict) : gen :=
  match subschemas with
  | [] => done
  | (index, subschema) :: rest =>
      gen_try (py_update schema subschema) (fun schema' =>
      gen_seq (descend validator instance (JDict schema') None
                       (Some (Index index)))
              (allOf_loop validator instance rest schema'))
  end.

Definition validate_allOf (validator : Validator) (allOf instance : json)
    (schema : dict) : gen :=
  gen_try (py_iter allOf) (fun items =>
  allOf_loop validator instance (enumerate items) []).

(** The loop shared by [validate_properties] and the library's
    [properties]. *)
Definition properties_loop (validator : Validator) (properties instance : json)
  : gen :=
  match properties with
  | JDict props =>
      gen_for props (fun kv =>
        gen_try (py_contains instance (JStr (fst kv))) (fun present =>
        if present then
          gen_try (py_getitem instance (fst kv)) (fun value =>
          descend validator value (snd kv)
                  (Some (Key (fst kv))) (Some (Key (fst kv))))
        else done))
  | _ => throw AttributeError
  end.

Definition validate_properties (validator : Validator)
    (properties instance : json) (schema : dict) : gen :=
  if nullable_short_circuit instance schema then done
  else
    gen_try (is_type instance (JStr "object")) (fun is_object =>
    if negb is_object then done
    else properties_loop validator properties instance).

(* ===================================================================== *)
(** * The two validator classes                                           *)
(* ===================================================================== *)

Definition handler : Type := Validator -> json -> json -> dict -> gen.

(** jsonschema's own [properties] handler, which the request validator
    keeps: [validate_properties] without the nullable test. *)
Definition properties_draft4 : handler :=
  fun validator properties instance schema =>
    gen_try (is_type instance (JStr "object")) (fun is_object =>
    if negb is_object then done
    else properties_loop validator properties instance).

(** The keywords of [Draft4Validator.VALIDATORS]. *)
Definition draft4_keywords : list string :=
  [ "$ref"; "additionalItems"; "additionalProperties"; "allOf"; "anyOf";
    "dependencies"; "enum"; "format"; "items"; "maxItems"; "maxLength";
    "maxProperties"; "maximum"; "minItems"; "minLength"; "minProperties";
    "minimum"; "multipleOf"; "not"; "oneOf"; "pattern"; "patternProperties";
    "properties"; "required"; "type"; "uniqueItems" ].

(** [extend(validator, validators)]: a copy of the base class's handler
    table, updated with [validators]. *)
Definition extend (base validators : list (string * handler))
  : list (string * handler) :=
  dict_update base validators.

Section Engine.

(** The library's Draft 4 handlers, by keyword.  Those that json_schema.py
    replaces in both classes are never called; the others are left open,
    except [properties], which is given above. *)
Variable draft4 : string -> handler.

Definition Draft4Validator_VALIDATORS : list (string * handler) :=
  map (fun k => (k, if String.eqb k "properties" then properties_draft4
                    else draft4 k))
      draft4_keywords.

Definition Draft4RequestValidator_VALIDATORS : list (string * handler) :=
  extend Draft4Validator_VALIDATORS
    [ ("type", validate_type);
      ("enum", validate_enum);
      ("required", validate_required);
      ("readOnly", validate_readOnly);
      ("oneOf", validate_oneOf);
      ("allOf", validate_allOf) ].

Definition Draft4ResponseValidator_VALIDATORS : list (string * handler) :=
  extend Draft4Validator_VALIDATORS
    [ ("type", validate_type);
      ("enum", validate_enum);
      ("required", validate_required);
      ("writeOnly", validate_writeOnly);
      ("x-writeOnly", validate_writeOnly);
      ("properties", validate_properties);
      ("oneOf", validate_oneOf) ].

(** jsonschema's [iter_errors] for a validator of the class with handler
    table [table], built for the schema [root] ([self.schema]): a subschema
    that is [None] stands for [root]; a boolean schema is decided at once; a
    schema with [$ref] is given to the [$ref] handler alone; otherwise every
    keyword of the schema that has a handler is run, in the schema's order,
    and its errors get the keyword in front of their [schema_path].  [fuel]
    bounds the nesting of [descend]; running out is Python's
    [RecursionError]. *)
Fixpoint run_validator (table : list (string * handler)) (root : json)
    (fuel : nat) (instance _schema : json) : gen :=
  match fuel with
  | 0 => throw RecursionError
  | S fuel' =>
      let self := {| VALIDATORS := map fst table;
                     iter_errors := run_validator table root fuel' |} in
      match (if is_None _schema then root else _schema) with
      | JBool true => done
      | JBool false => yield (new_error (false_schema instance) [])
      | JDict schema =>
          let ref := py_get schema "$ref" in
          let validators :=
            if is_None ref then schema else [("$ref", ref)] in
          gen_for validators (fun kv =>
            match dict_find (fst kv) table with
            | None => done
            | Some validator =>
                gen_map
                  (fun error =>
                     if String.eqb (fst kv) "$ref" then error
                     else prepend_schema_path (Some (Key (fst kv))) error)
                  (validator self (snd kv) instance schema)
            end)
      | _ => throw AttributeError
      end
  end.

(** A validator object of the class with handler table [table], built for
    the schema [root]. *)
Definition instantiate (table : list (string * handler)) (root : json)
    (fuel : nat) : Validator :=
  {| VALIDATORS := map fst table;
     iter_errors := run_validator table root fuel |}.

(** [Draft4RequestValidator(root)]. *)
Definition Draft4RequestValidator (root : json) (fuel : nat) : Validator :=
  instantiate Draft4RequestValidator_VALIDATORS root fuel.

(** [Draft4ResponseValidator(root)]. *)
Definition Draft4ResponseValidator (root : json) (fuel : nat) : Validator :=
  instantiate Draft4ResponseValidator_VALIDATORS root fuel.

End Engine.

(* ===================================================================== *)
(** * Part II: documents as Python objects                                 *)
(* ===================================================================== *)

(** Locations are positions in the heap. *)
Abbreviation loc := nat (only parsing).

(** A Python value: an immutable scalar, or a reference to a dict or list
    object of the heap. *)
Inductive value : Type :=
| VNone
| VBool (b : bool)
| VInt (n : Z)
| VStr (s : string)
| VLoc (l : loc).

Inductive object : Type :=
| ODict (items : list (string * value))
| OList (items : list value).

(** The heap: the object at each location. *)
Abbreviation heap := (list object) (only parsing).

(** The location a value refers to, if it is a reference. *)
Definition loc_of (v : value) : option loc :=
  match v with VLoc l => Some l | _ => None end.

(** The values an object holds. *)
Definition children (o : object) : list value :=
  match o with
  | ODict items => map snd items
  | OList items => items
  end.

(** ** Loading a JSON text, and reading a document back *)

(** The objects a JSON parser builds for the tree [t]: one fresh object per
    mapping and per list, nothing shared; the items of a container are
    built before the container itself. *)
Fixpoint load_all (ld : json -> heap -> heap * value) (ts : list json)
    (h : heap) : heap * list value :=
  match ts with
  | [] => (h, [])
  | t :: ts' =>
      let '(h1, v) := ld t h in
      let '(h2, vs) := load_all ld ts' h1 in
      (h2, v :: vs)
  end.

Fixpoint load_items (ld : json -> heap -> heap * value)
    (kts : list (string * json)) (h : heap) : heap * list (string * value) :=
  match kts with
  | [] => (h, [])
  | (k, t) :: kts' =>
      let '(h1, v) := ld t h in
      let '(h2, kvs) := load_items ld kts' h1 in
      (h2, (k, v) :: kvs)
  end.

Fixpoint load (t : json) (h : heap) : heap * value :=
  match t with
  | JNull => (h, VNone)
  | JBool b => (h, VBool b)
  | JInt n => (h, VInt n)
  | JStr s => (h, VStr s)
  | JList ts =>
      let '(h1, vs) := load_all load ts h in
      (h1 ++ [OList vs], VLoc (length h1))
  | JDict kts =>
      let '(h1, kvs) := load_items load kts h in
      (h1 ++ [ODict kvs], VLoc (length h1))
  end.

Fixpoint read_all (rd : value -> option json) (vs : list value)
  : option (list json) :=
  match vs with
  | [] => Some []
  | v :: vs' =>
      match rd v, read_all rd vs' with
      | Some t, Some ts => Some (t :: ts)
      | _, _ => None
      end
  end.

(** The JSON tree that [v] denotes in [h], unfolded to depth [fuel]. *)
Fixpoint read (fuel : nat) (h : heap) (v : value) : option json :=
  match v with
  | VNone => Some JNull
  | VBool b => Some (JBool b)
  | VInt n => Some (JInt n)
  | VStr s => Some (JStr s)
  | VLoc l =>
      match fuel with
      | 0 => None
      | S fuel' =>
          match h !! l with
          | Some (ODict items) =>
              match read_all (read fuel' h) (map snd items) with
              | Some ts => Some (JDict (combine (map fst items) ts))
              | None => None
              end
          | Some (OList items) =>
              match read_all (read fuel' h) items with
              | Some ts => Some (JList ts)
              | None => None
              end
          | None => None
          end
      end
  end.

(** ** [copy.deepcopy] *)

(** The memo of [deepcopy]: original object to its copy. *)
Abbreviation memo := (list (nat * nat)) (only parsing).

Fixpoint memo_find (l : loc) (m : memo) : option loc :=
  match m with
  | [] => None
  | (x, y) :: m' => if Nat.eqb l x then Some y else memo_find l m'
  end.

Fixpoint copy_all (copy : value -> heap * memo -> heap * memo * result value)
    (xs : list value) (st : heap * memo) : heap * memo * result (list value) :=
  match xs with
  | [] => (st, Ok [])
  | x :: xs' =>
      match copy x st with
      | (st1, Ok y) =>
          match copy_all copy xs' st1 with
          | (st2, Ok ys) => (st2, Ok (y :: ys))
          | (st2, Raise e) => (st2, Raise e)
          end
      | (st1, Raise e) => (st1, Raise e)
      end
  end.

(** [deepcopy(x, memo)]: scalars are returned as they are; a dict or list
    already in the memo gives its copy; otherwise a new object is made and
    entered in the memo before its items are copied in order.  (Python fills
    the new object item by item; here it is written once its items are
    copied, which leaves the same heap.) *)
Fixpoint deepcopy (fuel : nat) (x : value) (st : heap * memo)
  : heap * memo * result value :=
  match x with
  | VLoc l =>
      match memo_find l (snd st) with
      | Some y => (st, Ok (VLoc y))
      | None =>
          match fuel with
          | 0 => (st, Raise RecursionError)
          | S fuel' =>
              let y := length (fst st) in
              match fst st !! l with
              | Some (ODict items) =>
                  match copy_all (deepcopy fuel') (map snd items)
                          (fst st ++ [ODict []], (l, y) :: snd st) with
                  | (st1, Ok vs) =>
                      (<[y := ODict (combine (map fst items) vs)]> (fst st1),
                       snd st1, Ok (VLoc y))
                  | (st1, Raise e) => (st1, Raise e)
                  end
              | Some (OList items) =>
                  match copy_all (deepcopy fuel') items
                          (fst st ++ [OList []], (l, y) :: snd st) with
                  | (st1, Ok vs) =>
                      (<[y := OList vs]> (fst st1), snd st1, Ok (VLoc y))
                  | (st1, Raise e) => (st1, Raise e)
                  end
              | None => (st, Raise RuntimeError)
              end
          end
      end
  | _ => (st, Ok x)
  end.

(** ** String operations of [_do_resolve] *)

(** [s[n:]]. *)
Fixpoint string_from (n : nat) (s : string) : string :=
  match n, s with
  | S n', String _ s' => string_from n' s'
  | _, _ => s
  end.

(** [s.split("/")]. *)
Fixpoint split_slash (s : string) : list string :=
  match s with
  | EmptyString => [EmptyString]
  | String c s' =>
      if Ascii.eqb c "/"%char then EmptyString :: split_slash s'
      else
        match split_slash s' with
        | w :: ws => String c w :: ws
        | [] => [String c EmptyString]
        end
  end.

(** Modelled from the spec: [utils.deep_get] is imported by json_schema.py
    but is not among the sources.  The spec has it look the path up inside
    the root document, the lookup failing when the path is absent: each key
    of the path indexes a mapping, an absent key is [KeyError], and indexing
    anything that is not a mapping is [TypeError]. *)
Fixpoint deep_get (h : heap) (obj : value) (keys : list string)
  : result value :=
  match keys with
  | [] => Ok obj
  | k :: keys' =>
      match obj with
      | VLoc l =>
          match h !! l with
          | Some (ODict items) =>
              match dict_find k items with
              | Some v => deep_get h v keys'
              | None => Raise KeyError
              end
          | _ => Raise TypeError
          end
      | _ => Raise TypeError
      end
  end.

(** The items [node.update(other)] inserts and the exception that stops it
    (see [pair_of]). *)
Definition heap_pair_of (h : heap) (e : value) : result (string * value) :=
  match e with
  | VLoc l =>
      match h !! l with
      | Some (OList [VStr k; v]) => Ok (k, v)
      | Some (OList [_; _]) => Raise TypeError
      | Some (ODict [(k1, _); (k2, _)]) => Ok (k1, VStr k2)
      | Some _ => Raise ValueError
      | None => Raise TypeError
      end
  | VStr (String a (String b EmptyString)) =>
      Ok (String a EmptyString, VStr (String b EmptyString))
  | VStr _ => Raise ValueError
  | _ => Raise TypeError
  end.

Fixpoint heap_pairs_of (h : heap) (es : list value)
  : list (string * value) * option exn :=
  match es with
  | [] => ([], None)
  | e :: es' =>
      match heap_pair_of h e with
      | Ok kv => let '(kvs, r) := heap_pairs_of h es' in (kv :: kvs, r)
      | Raise x => ([], Some x)
      end
  end.

Definition update_items (h : heap) (other : value)
  : list (string * value) * option exn :=
  match other with
  | VLoc l =>
      match h !! l with
      | Some (ODict items) => (items, None)
      | Some (OList es) => heap_pairs_of h es
      | None => ([], Some TypeError)
      end
  | VStr EmptyString => ([], None)
  | VStr _ => ([], Some ValueError)
  | _ => ([], Some TypeError)
  end.

(** What [node['$ref'][2:].split("/")] raises when the reference is not a
    string: a list can be sliced but has no [split], the other values cannot
    be sliced. *)
Definition not_a_string (h : heap) (ref : value) : exn :=
  match ref with
  | VLoc l =>
      match h !! l with
      | Some (OList _) => AttributeError
      | _ => TypeError
      end
  | _ => TypeError
  end.

(** [node[k] = v] for the dict at [l]. *)
Definition heap_setitem (h : heap) (l : loc) (k : string) (v : value) : heap :=
  match h !! l with
  | Some (ODict items) => <[l := ODict (dict_set k v items)]> h
  | _ => h
  end.

(** [for x in xs: body(x)], stopping at the first exception. *)
Fixpoint for_each {A : Type} (xs : list A)
    (body : A -> heap -> heap * option exn) (h : heap) : heap * option exn :=
  match xs with
  | [] => (h, None)
  | x :: xs' =>
      match body x h with
      | (h', None) => for_each xs' body h'
      | (h', Some e) => (h', Some e)
      end
  end.

(** ** [resolve_refs] *)

Section Resolver.

(** [resolver.resolving(ref)] of the [RefResolver] built from the store and
    the handlers: the referenced document, an object of the heap, or
    [RefResolutionError]. *)
Variable resolving : heap -> string -> result value.

(** The deep copy that [_do_resolve] closes over. *)
Variable spec : value.

(** [_do_resolve(node)].  The two loops run over the positions of [node] and
    read the item at each position from the heap as it then is; [fuel]
    bounds the nesting of calls. *)
Fixpoint _do_resolve (fuel : nat) (node : value) (h : heap)
  : heap * result value :=
  match fuel with
  | 0 => (h, Raise RecursionError)
  | S fuel' =>
      match node with
      | VLoc l =>
          match h !! l with
          | Some (ODict items) =>
              match dict_find "$ref" items with
              | Some (VStr ref) =>
                  let path := split_slash (string_from 2 ref) in
                  match deep_get h spec path with
                  | Ok found =>
                      (* node.update(found); del node['$ref']; return node *)
                      let '(pairs, stop) := update_items h found in
                      let merged := dict_update items pairs in
                      match stop with
                      | Some e => (<[l := ODict merged]> h, Raise e)
                      | None =>
                          (<[l := ODict (dict_del "$ref" merged)]> h, Ok node)
                      end
                  | Raise KeyError => (h, resolving h ref)
                  | Raise e => (h, Raise e)
                  end
              | Some ref => (h, Raise (not_a_string h ref))
              | None =>
                  match
                    for_each (seq 0 (length items))
                      (fun i h0 =>
                         match h0 !! l with
                         | Some (ODict now) =>
                             match now !! i with
                             | Some (k, v) =>
                                 match _do_resolve fuel' v h0 with
                                 | (h1, Ok v') =>
                                     (heap_setitem h1 l k v', None)
                                 | (h1, Raise e) => (h1, Some e)
                                 end
                             | None => (h0, Some RuntimeError)
                             end
                         | _ => (h0, Some RuntimeError)
                         end) h
                  with
                  | (h', None) => (h', Ok node)
                  | (h', Some e) => (h', Raise e)
                  end
              end
          | Some (OList items) =>
              match
                for_each (seq 0 (length items))
                  (fun i h0 =>
                     match h0 !! l with
                     | Some (OList now) =>
                         match now !! i with
                         | Some v =>
                             match _do_resolve fuel' v h0 with
                             | (h1, Ok v') =>
                                 (match h1 !! l with
                                  | Some (OList now') =>
                                      <[l := OList (<[i := v']> now')]> h1
                                  | _ => h1
                                  end, None)
                             | (h1, Raise e) => (h1, Some e)
                             end
                         | None => (h0, Some RuntimeError)
                         end
                     | _ => (h0, Some RuntimeError)
                     end) h
              with
              | (h', None) => (h', Ok node)
              | (h', Some e) => (h', Raise e)
              end
          | None => (h, Ok node)
          end
      | _ => (h, Ok node)
      end
  end.

End Resolver.

(** [resolve_refs(spec, store, handlers)]: [spec = deepcopy(spec)], then
    [_do_resolve(spec)] on the copy.  The store and the handlers only reach
    the code through [resolving]. *)
Definition resolve_refs (resolving : heap -> string -> result value)
    (fuel : nat) (spec : value) (h : heap) : heap * result value :=
  match deepcopy fuel spec (h, []) with
  | (st, Ok copy) => _do_resolve resolving copy fuel copy (fst st)
  | (st, Raise e) => (fst st, Raise e)
  end.

(* ===================================================================== *)
(** * Documents and schemas of the statements below                        *)
(* ===================================================================== *)

(** Stands for the library's handlers where a statement fixes a validator
    and none of them is reached: reaching one would show as an exception. *)
Definition unreached : string -> handler :=
  fun _ _ _ _ _ => throw RuntimeError.

(** [{"type": "string", "nullable": true}] *)
Definition nullable_string_schema : dict :=
  [("type", JStr "string"); ("nullable", JBool true)].

(** [{"required": ["id"],
      "properties": {"id": {"type": "string", "readOnly": true}}}] *)
Definition required_id_schema : dict :=
  [("required", JList [JStr "id"]);
   ("properties",
    JDict [("id", JDict [("type", JStr "string"); ("readOnly", JBool true)])])].


(** [[{"type": "string"}, {}]] *)
Definition string_or_anything : list json :=
  [JDict [("type", JStr "string")]; JDict []].

(** [[{"properties": {"a": {"type": "string"}}},
      {"properties": {"a": {"type": "number"}}}]] *)
Definition a_string : dict :=
  [("properties", JDict [("a", JDict [("type", JStr "string")])])].
Definition a_number : dict :=
  [("properties", JDict [("a", JDict [("type", JStr "number")])])].

(** [{"a": {"value": 1}, "b": {"$ref": "#/a"}}] *)
Definition local_ref_document : json :=
  JDict [("a", JDict [("value", JInt 1)]);
         ("b", JDict [("$ref", JStr "#/a")])].

(** [{"b": {"$ref": "#/a"},
      "a": {"x": {"$ref": "http://example.com/s.json"}}}] *)
Definition nested_ref_document : json :=
  JDict [("b", JDict [("$ref", JStr "#/a")]);
         ("a", JDict [("x", JDict [("$ref",
                                    JStr "http://example.com/s.json")])])].

(** [{"a": {"x": {"$ref": "http://example.com/s.json"}},
      "b": {"$ref": "#/a"}}]: the same document, with ["a"] first. *)
Definition nested_ref_document_a_first : json :=
  JDict [("a", JDict [("x", JDict [("$ref",
                                    JStr "http://example.com/s.json")])]);
         ("b", JDict [("$ref", JStr "#/a")])].

(** The document stored under [http://example.com/s.json]:
    [{"type": "string"}]. *)
Definition stored_document : json := JDict [("type", JStr "string")].

(** The Python objects of a document with a shared node,
    [N = {"x": {"$ref": "http://example.com/s.json"}}] and
    [spec = {"p": N, "q": N, "d": {"z": {"$ref": "#/k"}}, "k": {"v": 1}}]:
    [spec] is at location 5, [N] at 3 and [spec["d"]] at 1. *)
Definition shared_node_heap : list object :=
  [ ODict [("$ref", VStr "#/k")];
    ODict [("z", VLoc 0)];
    ODict [("$ref", VStr "http://example.com/s.json")];
    ODict [("x", VLoc 2)];
    ODict [("v", VInt 1)];
    ODict [("p", VLoc 3); ("q", VLoc 3); ("d", VLoc 1); ("k", VLoc 4)] ].

(** A resolver whose store holds one document, the object [doc], under
    [uri]; any other reference fails. *)
Definition store_of (uri : string) (doc : value)
  : heap -> string -> result value :=
  fun _ ref =>
    if String.eqb ref uri then Ok doc else Raise (RefResolutionError ref).

(** [resolve_refs] on a freshly loaded document, the result read back as a
    tree: [store] is loaded first and served under [uri]. *)
Definition resolve_document (uri : string) (store document : json)
    (fuel : nat) : option json :=
  let '(h0, doc) := load store [] in
  let '(h1, spec) := load document h0 in
  match resolve_refs (store_of uri doc) fuel spec h1 with
  | (h2, Ok v) => read fuel h2 v
  | (_, Raise _) => None
  end.

(** Whether [schema] accepts [instance]: [iter_errors] yields nothing. *)
Definition accepts (validator : Validator) (instance schema : json) : bool :=
  match yielded (iter_errors validator instance schema) with
  | [] => true
  | _ :: _ => false
  end.

(** The errors [validate_oneOf] collects from the subschema at [index]. *)
Definition branch_errors (validator : Validator) (instance : json)
    (branch : nat * json) : list ValidationError :=
  yielded (descend validator instance (snd branch) None
                   (Some (Index (fst branch)))).

(** The schemas [validate_allOf] descends into: after each subschema, what
    has been merged so far. *)
Fixpoint merged_prefixes (schema : dict) (subschemas : list dict)
  : list dict :=
  match subschemas with
  | [] => []
  | d :: rest =>
      dict_update schema d :: merged_prefixes (dict_update schema d) rest
  end.

(** No mapping of the tree has the key [$ref]. *)
Fixpoint ref_free (t : json) : bool :=
  match t with
  | JList ts => forallb ref_free ts
  | JDict kts =>
      negb (dict_has "$ref" kts) && forallb (fun kt => ref_free (snd kt)) kts
  | _ => true
  end.

(** Every mapping of the tree has distinct keys, as a Python dict has. *)
Fixpoint keys_distinct (ks : list string) : bool :=
  match ks with
  | [] => true
  | k :: ks' => negb (existsb (String.eqb k) ks') && keys_distinct ks'
  end.

Fixpoint well_formed (t : json) : bool :=
  match t with
  | JList ts => forallb well_formed ts
  | JDict kts =>
      keys_distinct (map fst kts)
      && forallb (fun kt => well_formed (snd kt)) kts
  | _ => true
  end.

(** The nesting of containers in [t]. *)
Fixpoint depth (t : json) : nat :=
  match t with
  | JList ts => S (list_max (map depth ts))
  | JDict kts => S (list_max (map (fun kt => depth (snd kt)) kts))
  | _ => 0
  end.

(** Induction on JSON trees, with the hypothesis for every item. *)
Definition json_ind (P : json -> Prop)
    (HNull : P JNull) (HBool : forall b, P (JBool b))
    (HInt : forall n, P (JInt n)) (HStr : forall s, P (JStr s))
    (HList : forall ts, Forall P ts -> P (JList ts))
    (HDict : forall kts, Forall P (map snd kts) -> P (JDict kts))
  : forall t, P t :=
  fix go (t : json) : P t :=
    match t with
    | JNull => HNull
    | JBool b => HBool b
    | JInt n => HInt n
    | JStr s => HStr s
    | JList ts =>
        HList ts
          ((fix all (ts : list json) : Forall P ts :=
              match ts with
              | [] => @List.Forall_nil _ P
              | t :: ts' => @List.Forall_cons _ P t ts' (go t) (all ts')
              end) ts)
    | JDict kts =>
        HDict kts
          ((fix all (kts : list (string * json)) : Forall P (map snd kts) :=
              match kts with
              | [] => @List.Forall_nil _ P
              | kt :: kts' =>
                  @List.Forall_cons _ P (snd kt) (map snd kts') (go (snd kt))
                                    (all kts')
              end) kts)
    end.

(** [v] denotes the tree [t] in [h], through objects at locations in
    [[lo, hi)] only. *)
Unset Elimination Schemes.
Inductive repr (h : heap) (lo hi : nat) : value -> json -> Prop :=
| repr_null : repr h lo hi VNone JNull
| repr_bool b : repr h lo hi (VBool b) (JBool b)
| repr_int n : repr h lo hi (VInt n) (JInt n)
| repr_str s : repr h lo hi (VStr s) (JStr s)
| repr_list l vs ts :
    lo <= l < hi ->
    h !! l = Some (OList vs) ->
    Forall2 (repr h lo hi) vs ts ->
    repr h lo hi (VLoc l) (JList ts)
| repr_dict l kvs kts :
    lo <= l < hi ->
    h !! l = Some (ODict kvs) ->
    map fst kvs = map fst kts ->
    Forall2 (repr h lo hi) (map snd kvs) (map snd kts) ->
    repr h lo hi (VLoc l) (JDict kts).
Set Elimination Schemes.

(** The object at [l] holds a reference to the object at [l']. *)
Definition points_to (h : heap) (l l' : loc) : Prop :=
  exists o, h !! l = Some o /\ In (VLoc l') (children o).

(** [v] is a scalar or a reference into the region [A]. *)
Definition within (A : loc -> Prop) (v : value) : Prop :=
  forall l, v = VLoc l -> A l.

(** No object of the region [A] refers to an object outside it. *)
Definition closed (h : heap) (A : loc -> Prop) : Prop :=
  forall l l', A l -> points_to h l l' -> A l'.

(** What one [deepcopy] call keeps, for objects at locations from [n] on
    being the new ones: the heap only grows, the objects that were there
    stay as they were, new objects refer to new objects only, and so do the
    memo and the result. *)
Definition copy_keeps (n : nat) {R : Type} (good : R -> Prop)
    (h : list object) (m : list (nat * nat))
    (out : list object * list (nat * nat) * result R) : Prop :=
  n <= length h -> closed h (le n) ->
  (forall l y, memo_find l m = Some y -> n <= y) ->
  length h <= length (fst (fst out))
  /\ (forall l, l < length h -> fst (fst out) !! l = h !! l)
  /\ closed (fst (fst out)) (le n)
  /\ (forall l y, memo_find l (snd (fst out)) = Some y -> n <= y)
  /\ (forall v, snd out = Ok v -> good v).

(** What [_do_resolve] keeps, for [A] the objects it may reach: no object of
    [A] refers outside [A], and every object outside [A] is as in [base]. *)
Definition kept (A : nat -> Prop) (base h : list object) : Prop :=
  closed h A /\ forall l, ~ A l -> h !! l = base !! l.

(** The number of containers (lists and mappings) of [t]. *)
Fixpoint size (t : json) : nat :=
  match t with
  | JList ts => S (list_sum (map size ts))
  | JDict kts => S (list_sum (map (fun kt => size (snd kt)) kts))
  | _ => 0
  end.

Definition sizes (ts : list json) : nat := list_sum (map size ts).

(** The items [vs] denote the trees [ts], one behind the other from
    location [y] on, each as [P] says. *)
Inductive laid_seq (P : nat -> json -> value -> Prop)
  : nat -> list json -> list value -> Prop :=
| laid_nil y : laid_seq P y [] []
| laid_cons y t ts v vs :
    P y t v -> laid_seq P (y + size t) ts vs ->
    laid_seq P y (t :: ts) (v :: vs).

(** [v] denotes the tree [t] in [h] without sharing: the containers of [t]
    are the objects at [[y, y + size t)], every container in front of its
    items, which is how [deepcopy] lays out the copy of a tree. *)
Unset Elimination Schemes.
Inductive laid (h : heap) : nat -> json -> value -> Prop :=
| laid_null y : laid h y JNull VNone
| laid_bool y b : laid h y (JBool b) (VBool b)
| laid_int y n : laid h y (JInt n) (VInt n)
| laid_str y s : laid h y (JStr s) (VStr s)
| laid_list y ts vs :
    h !! y = Some (OList vs) ->
    laid_seq (laid h) (S y) ts vs ->
    laid h y (JList ts) (VLoc y)
| laid_dict y kts kvs :
    h !! y = Some (ODict kvs) ->
    map fst kvs = map fst kts ->
    laid_seq (laid h) (S y) (map snd kts) (map snd kvs) ->
    laid h y (JDict kts) (VLoc y).
Set Elimination Schemes.





(** [{"d": {"z": {"$ref": "#/k"}}, "k": {"v": 1},
      "x": {"$ref": "http://example.com/s.json"}}]: loaded into the empty
    heap, ["d"] is the object at location 1. *)
Definition mixed_ref_document : json :=
  JDict [("d", JDict [("z", JDict [("$ref", JStr "#/k")])]);
         ("k", JDict [("v", JInt 1)]);
         ("x", JDict [("$ref", JStr "http://example.com/s.json")])].

(** ["/".join(keys)]. *)
Fixpoint join_slash (keys : list string) : string :=
  match keys with
  | [] => EmptyString
  | [k] => k
  | k :: keys' => String.append k (String "/"%char (join_slash keys'))
  end.

(** The string has no ["/"]. *)
Fixpoint no_slash (s : string) : bool :=
  match s with
  | EmptyString => true
  | String c s' => negb (Ascii.eqb c "/"%char) && no_slash s'
  end.

(** What [_do_resolve] keeps of the shape of the objects in [h]: a mapping
    without [$ref] keeps its keys, in order, and a list keeps its length. *)
Definition shape_kept (h h' : list object) : Prop :=
  forall l,
    match h !! l with
    | Some (ODict items) =>
        dict_has "$ref" items = false ->
        exists items',
          h' !! l = Some (ODict items') /\ map fst items' = map fst items
    | Some (OList vs) =>
        exists vs', h' !! l = Some (OList vs') /\ length vs' = length vs
    | None => True
    end.

(** The error [validate_required] yields for [prop]. *)
Definition required_error (prop : json) : ValidationError :=
  new_error (is_a_required_property prop) [].

(* ===================================================================== *)
(** * Properties of the keyword handlers                                   *)
(* ===================================================================== *)


Lemma is_valid_accepts validator instance schema :
  raised (iter_errors validator instance schema) = None ->
  is_valid validator instance schema = Ok (accepts validator instance schema).
Proof.
  unfold is_valid, accepts.
  destruct (iter_errors validator instance schema) as [[|e es] [x|]];
    simpl; intros H; try discriminate; reflexivity.
Qed.

Lemma branch_errors_nil validator instance i s :
  branch_errors validator instance (i, s) = [] <->
  accepts validator instance s = true.
Proof.
  unfold branch_errors, accepts, descend, gen_map; simpl.
  destruct (yielded (iter_errors validator instance s)); simpl;
    split; intros H; try discriminate; reflexivity.
Qed.

Lemma oneOf_more_filter validator instance subs i :
  Forall (fun s => raised (iter_errors validator instance s) = None) subs ->
  oneOf_more validator instance (enumerate_from i subs)
  = Ok (List.filter (accepts validator instance) subs).
Proof.
  intros H. revert i. induction H as [|s subs Hs _ IH]; intros i; simpl.
  - reflexivity.
  - rewrite (is_valid_accepts _ _ _ Hs), IH.
    destruct (accepts validator instance s); reflexivity.
Qed.

(** The first loop of [validate_oneOf], by the subschemas that accept. *)
Lemma oneOf_first_filter validator instance subs :
  Forall (fun s => raised (iter_errors validator instance s) = None) subs ->
  forall i acc,
    match List.filter (accepts validator instance) subs with
    | [] =>
        oneOf_first validator instance (enumerate_from i subs) acc
        = Ok (acc ++ flat_map (branch_errors validator instance)
                              (enumerate_from i subs), None, [])
    | first :: more =>
        exists acc' k rest,
          oneOf_first validator instance (enumerate_from i subs) acc
          = Ok (acc', Some first, enumerate_from k rest)
          /\ List.filter (accepts validator instance) rest = more
          /\ Forall (fun s => raised (iter_errors validator instance s) = None)
                    rest
    end.
Proof.
  induction 1 as [|s subs Hs Hrest IH]; intros i acc;
    cbn [oneOf_first enumerate_from List.filter flat_map].
  - now rewrite app_nil_r.
  - assert (Hg : gen_list (descend validator instance s None
                                   (Some (Index i)))
                 = Ok (branch_errors validator instance (i, s))).
    { unfold gen_list, branch_errors, descend, gen_map; simpl.
      now rewrite Hs. }
    rewrite Hg.
    pose proof (branch_errors_nil validator instance i s) as Hb.
    destruct (accepts validator instance s) eqn:Ha.
    + rewrite (proj2 Hb eq_refl). exists acc, (S i), subs. auto.
    + destruct (branch_errors validator instance (i, s)) as [|e es] eqn:He.
      { destruct Hb as [Hb _]. now specialize (Hb eq_refl). }
      specialize (IH (S i) (acc ++ e :: es)).
      destruct (List.filter (accepts validator instance) subs) as [|f more].
      * rewrite IH. now rewrite <- app_assoc.
      * exact IH.
Qed.

(** C1: [validate_oneOf], once the nullable test of its first line does not
    apply and the subschemas validate without an exception: when exactly one
    subschema accepts the instance the handler yields nothing; when none
    does it yields one "not valid under any" error whose context is every
    error collected from the subschemas, in order; when several do it yields
    one "valid under each of" error that lists all of them (those after the
    first match, then the first match).  In particular
    [[{"type": "string"}, {}]] and ["x"] give the "valid under each of"
    error, under both validator classes. *)
Theorem validate_oneOf_exactly_one :
  (forall (validator : Validator) (instance : json) (schema : dict)
          (subs : list json),
      nullable_short_circuit instance schema = false ->
      Forall (fun s => raised (iter_errors validator instance s) = None) subs ->
      validate_oneOf validator (JList subs) instance schema =
      match List.filter (accepts validator instance) subs with
      | [] =>
          yield (new_error (not_valid_under_any instance)
                   (flat_map (branch_errors validator instance)
                             (enumerate subs)))
      | [_] => done
      | first :: more =>
          yield (new_error (valid_under_each instance (more ++ [first])) [])
      end)
  /\ (forall (draft4 : string -> handler) (root : json) (fuel : nat)
             (schema : dict),
        let error :=
          new_error (valid_under_each (JStr "x")
                       [JDict []; JDict [("type", JStr "string")]]) [] in
        validate_oneOf (Draft4RequestValidator draft4 root (S fuel))
                       (JList string_or_anything) (JStr "x") schema
        = yield error
        /\ validate_oneOf (Draft4ResponseValidator draft4 root (S fuel))
                          (JList string_or_anything) (JStr "x") schema
           = yield error).
Proof.
  split.
  - intros validator instance schema subs Hnull Hsubs.
    unfold validate_oneOf. rewrite Hnull. simpl. unfold enumerate.
    pose proof (oneOf_first_filter validator instance subs Hsubs 0 []) as H1.
    destruct (List.filter (accepts validator instance) subs) as [|first more].
    + rewrite H1. simpl. reflexivity.
    + destruct H1 as (acc' & k & rest & -> & Hmore & Hrest). simpl.
      rewrite (oneOf_more_filter _ _ _ k Hrest), Hmore. simpl.
      destruct more; reflexivity.
  - intros draft4 root fuel schema. split; reflexivity.
Qed.

Lemma validate_oneOf_exactly_one_witness :
  validate_oneOf (Draft4RequestValidator unreached (JDict []) 2)
    (JList [JDict [("type", JStr "string")]; JDict [("type", JStr "number")]])
    (JInt 5) [] = done.
Proof.
  apply (proj1 validate_oneOf_exactly_one
           (Draft4RequestValidator unreached (JDict []) 2) (JInt 5) []
           [JDict [("type", JStr "string")]; JDict [("type", JStr "number")]]).
  - reflexivity.
  - repeat constructor.
Defined.

Lemma allOf_loop_prefixes validator instance (subschemas : list dict) :
  forall i schema,
    allOf_loop validator instance (enumerate_from i (map JDict subschemas))
               schema
    = gen_for (enumerate_from i (merged_prefixes schema subschemas))
        (fun im => descend validator instance (JDict (snd im)) None
                           (Some (Index (fst im)))).
Proof.
  induction subschemas as [|d rest IH]; intros i schema; simpl.
  - reflexivity.
  - now rewrite IH.
Qed.

(** C2, as the code has it: [validate_allOf] descends the instance, at each
    index, into what has been merged up to that index.  For the two
    subschemas of the claim the merged schema asks for a string at index 0
    and, after the overwrite, for a number at index 1: [{"a": "x"}] fails
    with one type error (from index 1) and [{"a": 1}] fails as well, with
    one type error (from index 0). *)
Theorem validate_allOf_cumulative :
  (forall (validator : Validator) (instance : json) (schema : dict)
          (subschemas : list dict),
      validate_allOf validator (JList (map JDict subschemas)) instance schema
      = gen_for (enumerate (merged_prefixes [] subschemas))
          (fun im => descend validator instance (JDict (snd im)) None
                             (Some (Index (fst im)))))
  /\ merged_prefixes [] [a_string; a_number] = [a_string; a_number]
  /\ (forall (draft4 : string -> handler) (root : json) (fuel : nat)
             (schema : dict),
        validate_allOf (Draft4RequestValidator draft4 root (3 + fuel))
          (JList [JDict a_string; JDict a_number])
          (JDict [("a", JStr "x")]) schema
        = yield (mkError (types_msg (JStr "x") [JStr "number"])
                   [Key "a"]
                   [Index 1; Key "properties"; Key "a"; Key "type"] [])
        /\ validate_allOf (Draft4RequestValidator draft4 root (3 + fuel))
             (JList [JDict a_string; JDict a_number])
             (JDict [("a", JInt 1)]) schema
           = yield (mkError (types_msg (JInt 1) [JStr "string"])
                      [Key "a"]
                      [Index 0; Key "properties"; Key "a"; Key "type"] [])).
Proof.
  split; [|split].
  - intros validator instance schema subschemas.
    unfold validate_allOf, enumerate; simpl. apply allOf_loop_prefixes.
  - reflexivity.
  - intros draft4 root fuel schema. split; reflexivity.
Qed.

(** C2 as stated fails: [{"a": 1}] does not pass, the handler yields a type
    error for it. *)
Lemma validate_allOf_later_wins_counterexample :
  yielded (validate_allOf (Draft4RequestValidator unreached (JDict []) 3)
             (JList [JDict a_string; JDict a_number])
             (JDict [("a", JInt 1)]) [])
  = [mkError (types_msg (JInt 1) [JStr "string"]) [Key "a"]
       [Index 0; Key "properties"; Key "a"; Key "type"] []].
Proof. reflexivity. Qed.




(** C4: [validate_required] with schema
    [{"required": ["id"], "properties": {"id": {"type": "string",
    "readOnly": true}}}] and instance [{}] yields nothing under the request
    validator, and neither does the whole request validation; under the
    response validator it yields the required-property error for ["id"],
    which the whole response validation reports. *)
Theorem validate_required_readOnly_id :
  forall (draft4 : string -> handler) (root : json) (fuel : nat),
    validate_required (Draft4RequestValidator draft4 root fuel)
      (JList [JStr "id"]) (JDict []) required_id_schema = done
    /\ iter_errors (Draft4RequestValidator draft4 root (S fuel))
         (JDict []) (JDict required_id_schema) = done
    /\ validate_required (Draft4ResponseValidator draft4 root fuel)
         (JList [JStr "id"]) (JDict []) required_id_schema
       = yield (new_error (is_a_required_property (JStr "id")) [])
    /\ iter_errors (Draft4ResponseValidator draft4 root (S fuel))
         (JDict []) (JDict required_id_schema)
       = yield (mkError (is_a_required_property (JStr "id")) []
                  [Key "required"] []).
Proof. intros draft4 root fuel. repeat split; reflexivity. Qed.




(** C6: with schema [{"type": "string", "nullable": true}], [validate_type]
    yields nothing for [null] and exactly one type error for [42]; the
    same holds for the whole validation under both classes. *)
Theorem validate_type_nullable_string :
  forall (validator : Validator) (draft4 : string -> handler) (root : json)
         (fuel : nat),
    let type_error := types_msg (JInt 42) [JStr "string"] in
    validate_type validator (JStr "string") JNull nullable_string_schema
    = done
    /\ validate_type validator (JStr "string") (JInt 42)
         nullable_string_schema
       = yield (new_error type_error [])
    /\ iter_errors (Draft4RequestValidator draft4 root (S fuel)) JNull
         (JDict nullable_string_schema) = done
    /\ iter_errors (Draft4ResponseValidator draft4 root (S fuel)) JNull
         (JDict nullable_string_schema) = done
    /\ iter_errors (Draft4RequestValidator draft4 root (S fuel)) (JInt 42)
         (JDict nullable_string_schema)
       = yield (mkError type_error [] [Key "type"] [])
    /\ iter_errors (Draft4ResponseValidator draft4 root (S fuel)) (JInt 42)
         (JDict nullable_string_schema)
       = yield (mkError type_error [] [Key "type"] []).
Proof. intros validator draft4 root fuel. repeat split; reflexivity. Qed.

Lemma short_circuit_handlers validator value instance schema :
  nullable_short_circuit instance schema = true ->
  validate_type validator value instance schema = done
  /\ validate_enum validator value instance schema = done
  /\ validate_oneOf validator value instance schema = done
  /\ validate_properties validator value instance schema = done.
Proof.
  intros H.
  unfold validate_type, validate_enum, validate_oneOf, validate_properties.
  rewrite H. repeat split; reflexivity.
Qed.

(** C10, as the code has it: [validate_type], [validate_enum],
    [validate_oneOf] and [validate_properties] share one test for a null
    instance, which treats the two markers differently.  Any truthy value of
    [nullable] makes the four handlers return at once; of [x-nullable] only
    the boolean [True] does.  When [x-nullable] is anything else and
    [nullable] is not truthy the test fails, and [validate_type],
    [validate_enum] and [validate_oneOf] go on to report the null instance:
    there a non-empty string or a non-zero number is enough under [nullable]
    and not under [x-nullable].  In [validate_properties] the test decides
    nothing: a null instance passes whatever the markers are, because the
    handler returns for every instance that is not an object. *)
Theorem nullable_markers_differ :
  (forall (validator : Validator) (value : json) (schema : dict),
      truthy (py_get schema "nullable") = true ->
      validate_type validator value JNull schema = done
      /\ validate_enum validator value JNull schema = done
      /\ validate_oneOf validator value JNull schema = done
      /\ validate_properties validator value JNull schema = done)
  /\ (forall (validator : Validator) (value : json) (schema : dict),
        py_get schema "x-nullable" = JBool true ->
        validate_type validator value JNull schema = done
        /\ validate_enum validator value JNull schema = done
        /\ validate_oneOf validator value JNull schema = done
        /\ validate_properties validator value JNull schema = done)
  /\ (forall (validator : Validator) (schema : dict),
        is_True (py_get schema "x-nullable") = false ->
        truthy (py_get schema "nullable") = false ->
        nullable_short_circuit JNull schema = false
        /\ validate_type validator (JStr "string") JNull schema
           = yield (new_error (types_msg JNull [JStr "string"]) [])
        /\ validate_enum validator (JList [JInt 1]) JNull schema
           = yield (new_error (not_one_of JNull (JList [JInt 1])) [])
        /\ validate_oneOf validator (JList []) JNull schema
           = yield (new_error (not_valid_under_any JNull) []))
  /\ (forall (validator : Validator) (properties : json) (schema : dict),
        validate_properties validator properties JNull schema = done)
  /\ (forall (instance : json) (schema : dict),
        nullable_short_circuit instance schema = true -> instance = JNull)
  /\ nullable_short_circuit JNull [("nullable", JStr "yes")] = true
  /\ nullable_short_circuit JNull [("nullable", JInt 1)] = true
  /\ nullable_short_circuit JNull [("x-nullable", JStr "yes")] = false
  /\ nullable_short_circuit JNull [("x-nullable", JInt 1)] = false
  /\ nullable_short_circuit JNull [("x-nullable", JBool true)] = true.
Proof.
  split; [|split; [|split; [|split; [|split]]]].
  - intros validator value schema H. apply short_circuit_handlers.
    unfold nullable_short_circuit. rewrite H. cbn. apply orb_true_r.
  - intros validator value schema H. apply short_circuit_handlers.
    unfold nullable_short_circuit. now rewrite H.
  - intros validator schema Hx Hn.
    assert (Hs : nullable_short_circuit JNull schema = false).
    { unfold nullable_short_circuit. now rewrite Hx, Hn. }
    unfold validate_type, validate_enum, validate_oneOf.
    rewrite Hs. repeat split; reflexivity.
  - intros validator properties schema. unfold validate_properties.
    destruct (nullable_short_circuit JNull schema); reflexivity.
  - intros instance schema H. unfold nullable_short_circuit in H.
    destruct instance; try discriminate. reflexivity.
  - repeat split; reflexivity.
Qed.

Lemma nullable_markers_differ_witness :
  (validate_type (Draft4RequestValidator unreached (JDict []) 1)
     (JStr "string") JNull
     [("type", JStr "string"); ("nullable", JStr "yes")] = done
   /\ validate_enum (Draft4RequestValidator unreached (JDict []) 1)
        (JStr "string") JNull
        [("type", JStr "string"); ("nullable", JStr "yes")] = done
   /\ validate_oneOf (Draft4RequestValidator unreached (JDict []) 1)
        (JStr "string") JNull
        [("type", JStr "string"); ("nullable", JStr "yes")] = done
   /\ validate_properties (Draft4RequestValidator unreached (JDict []) 1)
        (JStr "string") JNull
        [("type", JStr "string"); ("nullable", JStr "yes")] = done)
  /\ validate_type (Draft4RequestValidator unreached (JDict []) 1)
       (JStr "string") JNull
       [("type", JStr "string"); ("x-nullable", JStr "yes")]
     = yield (new_error (types_msg JNull [JStr "string"]) []).
Proof.
  split.
  - apply (proj1 nullable_markers_differ
             (Draft4RequestValidator unreached (JDict []) 1) (JStr "string")
             [("type", JStr "string"); ("nullable", JStr "yes")]).
    reflexivity.
  - apply (proj1 (proj2 (proj2 nullable_markers_differ))
             (Draft4RequestValidator unreached (JDict []) 1)
             [("type", JStr "string"); ("x-nullable", JStr "yes")]);
      reflexivity.
Defined.

(** C10 as stated fails for [validate_properties]: with
    [x-nullable: "yes"], which is not the boolean [True], the test fails and
    the null instance passes all the same, alone and through the response
    validator, exactly as it does with [x-nullable: true] and with no marker
    at all; under the same schema [validate_type] reports the null
    instance. *)
Lemma properties_null_passes_counterexample :
  nullable_short_circuit JNull
    [("properties", JDict [("a", JDict [("type", JStr "string")])]);
     ("x-nullable", JStr "yes")] = false
  /\ validate_properties (Draft4ResponseValidator unreached (JDict []) 1)
       (JDict [("a", JDict [("type", JStr "string")])]) JNull
       [("properties", JDict [("a", JDict [("type", JStr "string")])]);
        ("x-nullable", JStr "yes")] = done
  /\ iter_errors (Draft4ResponseValidator unreached (JDict []) 2) JNull
       (JDict [("properties", JDict [("a", JDict [("type", JStr "string")])]);
               ("x-nullable", JStr "yes")]) = done
  /\ iter_errors (Draft4ResponseValidator unreached (JDict []) 2) JNull
       (JDict [("properties", JDict [("a", JDict [("type", JStr "string")])]);
               ("x-nullable", JBool true)]) = done
  /\ iter_errors (Draft4ResponseValidator unreached (JDict []) 2) JNull
       (JDict [("properties", JDict [("a", JDict [("type", JStr "string")])])])
     = done
  /\ validate_type (Draft4ResponseValidator unreached (JDict []) 1)
       (JStr "object") JNull
       [("properties", JDict [("a", JDict [("type", JStr "string")])]);
        ("x-nullable", JStr "yes")]
     = yield (new_error (types_msg JNull [JStr "object"]) []).
Proof. repeat split; reflexivity. Qed.

(* ===================================================================== *)
(** * Properties of [resolve_refs]                                         *)
(* ===================================================================== *)

(** C7: resolving [{"a": {"value": 1}, "b": {"$ref": "#/a"}}] gives a tree
    whose ["b"] is [{"value": 1}] and in which no mapping has a [$ref] key;
    the caller's document still reads as it did. *)
Theorem resolve_local_ref :
  forall (resolving : heap -> string -> result value) (fuel : nat),
    let h0 := fst (load local_ref_document []) in
    let spec := snd (load local_ref_document []) in
    let r := resolve_refs resolving (3 + fuel) spec h0 in
    let resolved :=
      JDict [("a", JDict [("value", JInt 1)]);
             ("b", JDict [("value", JInt 1)])] in
    exists root,
      snd r = Ok root
      /\ read (3 + fuel) (fst r) root = Some resolved
      /\ attr_get resolved (JStr "b") = Ok (JDict [("value", JInt 1)])
      /\ ref_free resolved = true
      /\ read (3 + fuel) (fst r) spec = Some local_ref_document.
Proof.
  intros resolving fuel. exists (VLoc 3).
  repeat split; vm_compute; reflexivity.
Qed.

(** C3 on the code: the known-reference branch of [_do_resolve] returns the
    merged node without visiting it.  With ["b"] before ["a"] the external
    reference nested in the fragment that ["b"] points to is still a [$ref]
    node under ["b"] in the returned tree; with ["a"] first it is
    resolved. *)
Theorem nested_ref_left_unresolved :
  forall fuel : nat,
    resolve_document "http://example.com/s.json" stored_document
      nested_ref_document (4 + fuel)
    = Some (JDict
              [("b", JDict [("x", JDict [("$ref",
                                          JStr "http://example.com/s.json")])]);
               ("a", JDict [("x", JDict [("type", JStr "string")])])])
    /\ resolve_document "http://example.com/s.json" stored_document
         nested_ref_document_a_first (4 + fuel)
       = Some (JDict
                 [("a", JDict [("x", JDict [("type", JStr "string")])]);
                  ("b", JDict [("x", JDict [("type", JStr "string")])])]).
Proof. intros fuel. split; vm_compute; reflexivity. Qed.

(** ** Lists, dictionaries and loops *)

Lemma Forall2_weaken {A B : Type} (P Q : A -> B -> Prop) xs ys :
  (forall x y, P x y -> Q x y) -> Forall2 P xs ys -> Forall2 Q xs ys.
Proof. intros HPQ H. induction H; constructor; auto. Qed.

Lemma Forall2_by_right {A B : Type} (P Q : A -> B -> Prop) xs ys :
  Forall (fun y => forall x, P x y -> Q x y) ys ->
  Forall2 P xs ys -> Forall2 Q xs ys.
Proof.
  intros HF H. induction H; inversion HF; subst; constructor; auto.
Qed.

Lemma lookup_In {A : Type} (xs : list A) i x : xs !! i = Some x -> In x xs.
Proof.
  revert i. induction xs as [|y xs IH]; intros [|i] H; try discriminate.
  - injection H as ->. now left.
  - right. exact (IH i H).
Qed.

Lemma existsb_false_In {A : Type} (f : A -> bool) xs x :
  existsb f xs = false -> In x xs -> f x = false.
Proof.
  induction xs as [|y xs IH]; simpl; intros H Hin; [contradiction|].
  apply orb_false_iff in H. destruct Hin as [<-|Hin]; tauto.
Qed.

Lemma dict_has_keys {A : Type} (k : string) (d : list (string * A)) :
  dict_has k d = existsb (String.eqb k) (map fst d).
Proof.
  unfold dict_has. induction d as [|[k' v] d IH]; simpl; [reflexivity|].
  destruct (String.eqb k k'); [reflexivity | exact IH].
Qed.

Lemma dict_find_absent {A B : Type} (k : string) (d : list (string * A))
      (d' : list (string * B)) :
  map fst d = map fst d' -> dict_has k d' = false -> dict_find k d = None.
Proof.
  intros Hk Hd. rewrite dict_has_keys, <- Hk, <- dict_has_keys in Hd.
  unfold dict_has in Hd. destruct (dict_find k d); [discriminate|reflexivity].
Qed.


Lemma combine_fst_snd {A B : Type} (xs : list (A * B)) :
  combine (map fst xs) (map snd xs) = xs.
Proof. induction xs as [|[a b] xs IH]; simpl; congruence. Qed.

Lemma map_fst_combine {A B : Type} (xs : list A) (ys : list B) :
  length xs = length ys -> map fst (combine xs ys) = xs.
Proof.
  revert ys. induction xs as [|x xs IH]; intros [|y ys] H; simpl in *;
    try discriminate; [reflexivity|]. f_equal. apply IH. congruence.
Qed.

Lemma map_snd_combine {A B : Type} (xs : list A) (ys : list B) :
  length xs = length ys -> map snd (combine xs ys) = ys.
Proof.
  revert ys. induction xs as [|x xs IH]; intros [|y ys] H; simpl in *;
    try discriminate; [reflexivity|]. f_equal. apply IH. congruence.
Qed.


Lemma insert_placeholder {A : Type} (xs ys : list A) (x y : A) :
  <[length xs := x]> ((xs ++ [y]) ++ ys) = xs ++ x :: ys.
Proof.
  rewrite <- app_assoc. simpl.
  rewrite insert_app_r_alt by lia. now rewrite Nat.sub_diag.
Qed.

Lemma depth_items (ts : list json) (n : nat) :
  list_max (map depth ts) < n -> Forall (fun t => depth t < n) ts.
Proof.
  intros H. apply List.Forall_forall. intros t Ht.
  assert (Hle : list_max (map depth ts) <= list_max (map depth ts))
    by lia.
  apply list_max_le in Hle.
  rewrite List.Forall_forall in Hle.
  specialize (Hle (depth t) (in_map depth ts t Ht)). lia.
Qed.

(** ** Trees in the heap *)

Lemma repr_mono t :
  forall h h' lo hi lo' hi' v,
    lo' <= lo -> hi <= hi' ->
    (forall l, lo <= l < hi -> h' !! l = h !! l) ->
    repr h lo hi v t -> repr h' lo' hi' v t.
Proof.
  induction t as [| | | |ts IH|kts IH] using json_ind;
    intros h h' lo hi lo' hi' v Hlo Hhi Hag Hr;
    inversion Hr as [| | | |l vs ts' Hl Hh Hvs|l kvs kts' Hl Hh Hk Hvs];
    subst; try constructor.
  - apply repr_list with (vs := vs); [lia | now rewrite Hag |].
    eapply Forall2_by_right; [|exact Hvs].
    eapply List.Forall_impl; [|exact IH].
    intros t IHt x Hx. eapply IHt; eauto.
  - apply repr_dict with (kvs := kvs); [lia | now rewrite Hag | assumption |].
    eapply Forall2_by_right; [|exact Hvs].
    eapply List.Forall_impl; [|exact IH].
    intros t IHt x Hx. eapply IHt; eauto.
Qed.

Lemma read_all_Forall2 rd vs ts :
  Forall2 (fun v t => rd v = Some t) vs ts -> read_all rd vs = Some ts.
Proof.
  induction 1 as [|v t vs ts Hv _ IH]; simpl; [reflexivity|].
  now rewrite Hv, IH.
Qed.

Lemma repr_read t :
  forall h lo hi v fuel,
    repr h lo hi v t -> depth t < fuel -> read fuel h v = Some t.
Proof.
  induction t as [| | | |ts IH|kts IH] using json_ind;
    intros h lo hi v fuel Hr Hd;
    inversion Hr as [| | | |l vs ts' Hl Hh Hvs|l kvs kts' Hl Hh Hk Hvs];
    subst; destruct fuel as [|fuel]; try lia;
    try reflexivity; cbn [depth] in Hd; cbn [read]; rewrite Hh.
  - erewrite read_all_Forall2; [reflexivity|].
    eapply Forall2_by_right; [|exact Hvs].
    pose proof (depth_items ts fuel ltac:(lia)) as Hds.
    rewrite List.Forall_forall in IH, Hds. apply List.Forall_forall.
    intros t Ht x Hx. eapply IH; eauto.
  - erewrite read_all_Forall2.
    + rewrite Hk. now rewrite combine_fst_snd.
    + eapply Forall2_by_right; [|exact Hvs].
      rewrite <- map_map in Hd.
      pose proof (depth_items (map snd kts) fuel ltac:(lia)) as Hds.
      rewrite List.Forall_forall in IH, Hds. apply List.Forall_forall.
      intros t Ht x Hx. eapply IH; eauto.
Qed.

(** ** [_do_resolve] on a tree without references *)


(** ** Loading and copying a tree *)

Lemma load_all_cons ld t ts h :
  load_all ld (t :: ts) h
  = (fst (load_all ld ts (fst (ld t h))),
     snd (ld t h) :: snd (load_all ld ts (fst (ld t h)))).
Proof.
  simpl. destruct (ld t h) as [h1 v]. simpl.
  now destruct (load_all ld ts h1).
Qed.

Lemma load_items_all ld kts h :
  load_items ld kts h
  = (fst (load_all ld (map snd kts) h),
     combine (map fst kts) (snd (load_all ld (map snd kts) h))).
Proof.
  revert h. induction kts as [|[k t] kts IH]; intros h; [reflexivity|].
  cbn [load_items map fst snd]. rewrite load_all_cons.
  destruct (ld t h) as [h1 v]. rewrite IH. reflexivity.
Qed.

Lemma load_list ts h :
  load (JList ts) h
  = (fst (load_all load ts h) ++ [OList (snd (load_all load ts h))],
     VLoc (length (fst (load_all load ts h)))).
Proof. cbn [load]. now destruct (load_all load ts h). Qed.

Lemma load_dict kts h :
  load (JDict kts) h
  = (fst (load_all load (map snd kts) h)
       ++ [ODict (combine (map fst kts)
                          (snd (load_all load (map snd kts) h)))],
     VLoc (length (fst (load_all load (map snd kts) h)))).
Proof. cbn [load]. now rewrite load_items_all. Qed.

Lemma load_all_extends ts :
  Forall (fun t => forall h, exists objs, fst (load t h) = h ++ objs) ts ->
  forall h, exists objs,
    fst (load_all load ts h) = h ++ objs
    /\ length (snd (load_all load ts h)) = length ts.
Proof.
  induction 1 as [|t ts Ht _ IH]; intros h.
  - exists []. simpl. now rewrite app_nil_r.
  - rewrite load_all_cons. cbn [fst snd length].
    destruct (Ht h) as [o1 E1]. destruct (IH (fst (load t h))) as (o2 & E2 & L).
    exists (o1 ++ o2). rewrite L, E2, E1. now rewrite app_assoc.
Qed.

Lemma load_extends t :
  forall h, exists objs, fst (load t h) = h ++ objs.
Proof.
  induction t as [| | | |ts IH|kts IH] using json_ind; intros h;
    try (exists []; simpl; now rewrite app_nil_r).
  - rewrite load_list. destruct (load_all_extends ts IH h) as (o & E & _).
    cbn [fst]. rewrite E. eexists. now rewrite <- app_assoc.
  - rewrite load_dict.
    destruct (load_all_extends (map snd kts) IH h) as (o & E & _).
    cbn [fst]. rewrite E. eexists. now rewrite <- app_assoc.
Qed.

Lemma load_all_extends' ts h :
  exists objs,
    fst (load_all load ts h) = h ++ objs
    /\ length (snd (load_all load ts h)) = length ts.
Proof.
  apply load_all_extends. apply List.Forall_forall. intros t _.
  apply load_extends.
Qed.

(** Copying the items of a loaded container, given the statement for each
    item: the copies land behind [H], and the memo changes only at the
    locations of the items. *)
Lemma copy_all_load ts :
  Forall
    (fun t => forall h H m fuel,
       depth t < fuel ->
       (forall l, length h <= l < length (fst (load t h)) ->
                  memo_find l m = None) ->
       (forall l, length h <= l < length (fst (load t h)) ->
                  H !! l = fst (load t h) !! l) ->
       exists objs m' v',
         deepcopy fuel (snd (load t h)) (H, m) = (H ++ objs, m', Ok v')
         /\ repr (H ++ objs) (length H) (length H + length objs) v' t
         /\ (forall l, ~ length h <= l < length (fst (load t h)) ->
                       memo_find l m' = memo_find l m)) ts ->
  forall h H m fuel,
    Forall (fun t => depth t < fuel) ts ->
    (forall l, length h <= l < length (fst (load_all load ts h)) ->
               memo_find l m = None) ->
    (forall l, length h <= l < length (fst (load_all load ts h)) ->
               H !! l = fst (load_all load ts h) !! l) ->
    exists objs m' vs',
      copy_all (deepcopy fuel) (snd (load_all load ts h)) (H, m)
      = (H ++ objs, m', Ok vs')
      /\ Forall2 (repr (H ++ objs) (length H) (length H + length objs)) vs' ts
      /\ (forall l, ~ length h <= l < length (fst (load_all load ts h)) ->
                    memo_find l m' = memo_find l m).
Proof.
  induction 1 as [|t ts Ht _ IH]; intros h H m fuel Hd Hm HH.
  - exists [], m, []. simpl. rewrite app_nil_r. auto.
  - rewrite load_all_cons in *. cbn [fst snd] in *.
    destruct (load_extends t h) as [o1 E1].
    destruct (load_all_extends' ts (fst (load t h))) as (o2 & E2 & _).
    assert (L1 : length (fst (load t h)) = length h + length o1)
      by (rewrite E1; apply length_app).
    assert (L2 : length (fst (load_all load ts (fst (load t h))))
                 = length h + length o1 + length o2)
      by (rewrite E2, length_app; lia).
    assert (Hpre : forall l, l < length (fst (load t h)) ->
                fst (load_all load ts (fst (load t h))) !! l
                = fst (load t h) !! l).
    { intros l Hl. rewrite E2. now apply lookup_app_l. }
    inversion Hd as [|? ? Hdt Hdts]; subst.
    destruct (Ht h H m fuel Hdt) as (objs1 & m1 & v1 & C1 & R1 & M1).
    { intros l Hl. apply Hm. lia. }
    { intros l Hl. rewrite HH by lia. apply Hpre. lia. }
    destruct (IH (fst (load t h)) (H ++ objs1) m1 fuel Hdts)
      as (objs2 & m2 & vs2 & C2 & R2 & M2).
    { intros l Hl. rewrite M1 by lia. apply Hm. lia. }
    { intros l Hl.
      assert (Hlt : l < length H).
      { apply lookup_lt_is_Some. rewrite HH by lia.
        apply lookup_lt_is_Some. lia. }
      rewrite lookup_app_l by exact Hlt. apply HH. lia. }
    exists (objs1 ++ objs2), m2, (v1 :: vs2).
    cbn [copy_all]. rewrite C1, C2. rewrite <- app_assoc.
    split; [reflexivity|]. split.
    + rewrite length_app in R2. rewrite length_app.
      constructor.
      * eapply repr_mono; [| |  |exact R1]; try lia.
        intros l Hl. rewrite app_assoc. apply lookup_app_l.
        rewrite length_app. lia.
      * rewrite app_assoc. eapply Forall2_weaken; [|exact R2].
        intros x y Hxy. eapply repr_mono; [| | |exact Hxy]; try lia.
        reflexivity.
    + intros l Hl. rewrite M2 by lia. apply M1. lia.
Qed.

(** [deepcopy] of a loaded tree whose objects are not in the memo: the copy
    is made of new objects behind [H] and denotes the same tree. *)
Lemma deepcopy_load t :
  forall h H m fuel,
    depth t < fuel ->
    (forall l, length h <= l < length (fst (load t h)) ->
               memo_find l m = None) ->
    (forall l, length h <= l < length (fst (load t h)) ->
               H !! l = fst (load t h) !! l) ->
    exists objs m' v',
      deepcopy fuel (snd (load t h)) (H, m) = (H ++ objs, m', Ok v')
      /\ repr (H ++ objs) (length H) (length H + length objs) v' t
      /\ (forall l, ~ length h <= l < length (fst (load t h)) ->
                    memo_find l m' = memo_find l m).
Proof.
  induction t as [| | | |ts IH|kts IH] using json_ind;
    intros h H m fuel Hd Hm HH.
  1-4: exists [], m; eexists; rewrite app_nil_r;
    (split; [destruct fuel; reflexivity|split; [constructor|reflexivity]]).
  - rewrite load_list in *. cbn [fst snd] in *.
    destruct (load_all_extends' ts h) as (o & E & Lvs).
    remember (fst (load_all load ts h)) as hn eqn:Ehn.
    remember (snd (load_all load ts h)) as vs eqn:Evs.
    assert (Ln : length hn = length h + length o)
      by (rewrite E; apply length_app).
    assert (Lh : length (hn ++ [OList vs]) = S (length hn))
      by (rewrite length_app; simpl; lia).
    rewrite Lh in Hm, HH.
    destruct fuel as [|fuel]; [lia|]. cbn [depth] in Hd.
    assert (Hmiss : memo_find (length hn) m = None) by (apply Hm; lia).
    assert (Hobj : H !! length hn = Some (OList vs)).
    { rewrite HH by lia. now apply list_lookup_middle. }
    destruct (copy_all_load ts IH h (H ++ [OList []])
                ((length hn, length H) :: m) fuel)
      as (objs & m1 & vs' & C & R & M).
    + apply depth_items. lia.
    + rewrite <- Ehn. intros l Hl. cbn [memo_find].
      destruct (Nat.eqb_spec l (length hn)); [lia|]. apply Hm. lia.
    + rewrite <- Ehn. intros l Hl.
      assert (Hlt : l < length H).
      { apply lookup_lt_is_Some. rewrite HH by lia.
        apply lookup_lt_is_Some. lia. }
      rewrite lookup_app_l by exact Hlt. rewrite HH by lia.
      apply lookup_app_l. lia.
    + rewrite <- Ehn, <- Evs in *.
      exists (OList vs' :: objs), m1, (VLoc (length H)).
      cbn [deepcopy fst snd]. rewrite Hmiss, Hobj, C. cbn [fst snd].
      rewrite insert_placeholder.
      rewrite length_app in R; cbn [length] in R.
      split; [reflexivity|]. split.
      * apply repr_list with (vs := vs'); [cbn [length]; lia| |].
        { now apply list_lookup_middle. }
        eapply Forall2_weaken; [|exact R].
        intros x y Hxy. eapply repr_mono; [| | |exact Hxy];
          [lia|cbn [length]; lia|].
        intros l Hl. rewrite <- (insert_placeholder H objs _ (OList [])).
        apply list_lookup_insert_ne. lia.
      * intros l Hl. rewrite M by lia. cbn [memo_find].
        destruct (Nat.eqb_spec l (length hn)); [lia|reflexivity].
  - rewrite load_dict in *. cbn [fst snd] in *.
    destruct (load_all_extends' (map snd kts) h) as (o & E & Lvs).
    remember (fst (load_all load (map snd kts) h)) as hn eqn:Ehn.
    remember (snd (load_all load (map snd kts) h)) as vs eqn:Evs.
    rewrite length_map in Lvs.
    assert (Lk : length (map fst kts) = length vs)
      by (rewrite length_map; lia).
    assert (Ln : length hn = length h + length o)
      by (rewrite E; apply length_app).
    assert (Lh : length (hn ++ [ODict (combine (map fst kts) vs)])
                 = S (length hn))
      by (rewrite length_app; simpl; lia).
    rewrite Lh in Hm, HH.
    destruct fuel as [|fuel]; [lia|]. cbn [depth] in Hd.
    rewrite <- map_map in Hd.
    assert (Hmiss : memo_find (length hn) m = None) by (apply Hm; lia).
    assert (Hobj : H !! length hn = Some (ODict (combine (map fst kts) vs))).
    { rewrite HH by lia. now apply list_lookup_middle. }
    destruct (copy_all_load (map snd kts) IH h (H ++ [ODict []])
                ((length hn, length H) :: m) fuel)
      as (objs & m1 & vs' & C & R & M).
    + apply depth_items. lia.
    + rewrite <- Ehn. intros l Hl. cbn [memo_find].
      destruct (Nat.eqb_spec l (length hn)); [lia|]. apply Hm. lia.
    + rewrite <- Ehn. intros l Hl.
      assert (Hlt : l < length H).
      { apply lookup_lt_is_Some. rewrite HH by lia.
        apply lookup_lt_is_Some. lia. }
      rewrite lookup_app_l by exact Hlt. rewrite HH by lia.
      apply lookup_app_l. lia.
    + rewrite <- Ehn, <- Evs in *.
      assert (Lvs' : length (map fst kts) = length vs').
      { rewrite (Forall2_length _ _ _ R). now rewrite !length_map. }
      exists (ODict (combine (map fst kts) vs') :: objs), m1,
             (VLoc (length H)).
      cbn [deepcopy fst snd]. rewrite Hmiss, Hobj.
      rewrite (map_snd_combine _ _ Lk), (map_fst_combine _ _ Lk), C.
      cbn [fst snd]. rewrite insert_placeholder.
      rewrite length_app in R; cbn [length] in R.
      split; [reflexivity|]. split.
      * apply repr_dict with (kvs := combine (map fst kts) vs');
          [cbn [length]; lia| | |].
        { now apply list_lookup_middle. }
        { now apply map_fst_combine. }
        rewrite (map_snd_combine _ _ Lvs').
        eapply Forall2_weaken; [|exact R].
        intros x y Hxy. eapply repr_mono; [| | |exact Hxy];
          [lia|cbn [length]; lia|].
        intros l Hl. rewrite <- (insert_placeholder H objs _ (ODict [])).
        apply list_lookup_insert_ne. lia.
      * intros l Hl. rewrite M by lia. cbn [memo_find].
        destruct (Nat.eqb_spec l (length hn)); [lia|reflexivity].
Qed.




(** ** What [deepcopy] writes *)

Lemma within_scalar (A : nat -> Prop) (v : value) :
  loc_of v = None -> within A v.
Proof. intros H l ->. discriminate. Qed.

Lemma In_combine_snd {X Y : Type} (xs : list X) (ys : list Y) y :
  In y (map snd (combine xs ys)) -> In y ys.
Proof.
  revert ys. induction xs as [|x xs IH]; intros [|y' ys]; simpl; try tauto.
  intros [<-|H]; auto.
Qed.

Lemma closed_insert (A : nat -> Prop) (h : list object) l o :
  closed h A ->
  (forall l', In (VLoc l') (children o) -> A l') ->
  closed (<[l := o]> h) A.
Proof.
  intros Hc Ho la l' Hla (o' & Hlook & Hin).
  destruct (Nat.eq_dec l la) as [->|Hne].
  - pose proof (lookup_lt_Some _ _ _ Hlook) as Hlt.
    rewrite length_insert in Hlt.
    rewrite list_lookup_insert_eq in Hlook by exact Hlt.
    injection Hlook as <-. auto.
  - rewrite list_lookup_insert_ne in Hlook by exact Hne.
    apply (Hc la l' Hla). now exists o'.
Qed.

Lemma closed_app_placeholder (n : nat) (h : list object) o :
  children o = [] -> closed h (le n) -> closed (h ++ [o]) (le n).
Proof.
  intros Ho Hc l l' Hl (o' & Hlook & Hin).
  apply lookup_app_Some in Hlook as [Hlook|[_ Hlook]].
  - apply (Hc l l' Hl). now exists o'.
  - destruct (l - length h) as [|k]; simpl in Hlook; [|discriminate].
    injection Hlook as <-. rewrite Ho in Hin. destruct Hin.
Qed.

Section DeepcopyFrame.

Variable n : nat.

Lemma copy_all_keeps copy xs :
  (forall x h m, copy_keeps n (within (le n)) h m (copy x (h, m))) ->
  forall h m,
    copy_keeps n (Forall (within (le n))) h m (copy_all copy xs (h, m)).
Proof.
  intros Hcopy. induction xs as [|x xs IH]; intros h m Hn Hc Hm.
  - simpl. repeat split; auto. intros v [= <-]. constructor.
  - cbn [copy_all].
    specialize (Hcopy x h m Hn Hc Hm).
    destruct (copy x (h, m)) as [[h1 m1] [y|e]]; cbn [fst snd] in *.
    + destruct Hcopy as (L1 & F1 & C1 & M1 & G1).
      specialize (IH h1 m1 ltac:(lia) C1 M1).
      destruct (copy_all copy xs (h1, m1)) as [[h2 m2] [ys|e]];
        cbn [fst snd] in *;
        destruct IH as (L2 & F2 & C2 & M2 & G2);
        (split; [lia|split; [intros l Hl; rewrite F2 by lia; now apply F1|]]);
        repeat split; auto; try discriminate.
      intros v [= <-]. constructor; auto.
    + destruct Hcopy as (L1 & F1 & C1 & M1 & G1).
      repeat split; auto. discriminate.
Qed.

Lemma deepcopy_keeps fuel :
  forall x h m, copy_keeps n (within (le n)) h m (deepcopy fuel x (h, m)).
Proof.
  assert (Hsame : forall h m (r : result value),
             (forall v, r = Ok v -> within (le n) v) ->
             copy_keeps n (within (le n)) h m (h, m, r)).
  { intros h m r Hr Hn Hc Hm. cbn [fst snd]. repeat split; auto. }
  induction fuel as [|fuel IH]; intros x h m.
  - destruct x as [| | | |l]; cbn [deepcopy fst snd];
      try (apply Hsame; intros v [= <-]; now apply within_scalar).
    destruct (memo_find l m) as [y|] eqn:Hy.
    + intros Hn Hc Hm. cbn [fst snd]. repeat split; auto.
      intros v [= <-] l' [= <-]. eauto.
    + apply Hsame. discriminate.
  - destruct x as [| | | |l]; cbn [deepcopy fst snd];
      try (apply Hsame; intros v [= <-]; now apply within_scalar).
    destruct (memo_find l m) as [y|] eqn:Hy.
    { intros Hn Hc Hm. cbn [fst snd]. repeat split; auto.
      intros v [= <-] l' [= <-]. eauto. }
    destruct (h !! l) as [[items|items]|] eqn:Hl;
      [| |apply Hsame; discriminate].
    + intros Hn Hc Hm.
      pose proof (copy_all_keeps (deepcopy fuel) (map snd items) IH
                    (h ++ [ODict []]) ((l, length h) :: m)) as K.
      destruct (copy_all (deepcopy fuel) (map snd items)
                  (h ++ [ODict []], (l, length h) :: m))
        as [[h1 m1] [vs|e]]; cbn [fst snd] in *;
        (destruct K as (L1 & F1 & C1 & M1 & G1);
         [rewrite length_app; simpl; lia
         |now apply closed_app_placeholder
         |intros l0 y0; cbn [memo_find]; destruct (Nat.eqb l0 l);
            [intros [= <-]; lia|eauto]
         |]);
        rewrite length_app in L1; simpl in L1.
      * rewrite length_insert. split; [lia|]. split.
        { intros l0 Hl0. rewrite list_lookup_insert_ne by lia.
          rewrite F1 by (rewrite length_app; simpl; lia).
          now apply lookup_app_l. }
        split.
        { apply closed_insert; [exact C1|]. intros l' Hin.
          apply In_combine_snd in Hin.
          specialize (G1 vs eq_refl). rewrite List.Forall_forall in G1.
          exact (G1 _ Hin l' eq_refl). }
        split; [exact M1|]. intros v [= <-] l' [= <-]. lia.
      * split; [lia|]. split.
        { intros l0 Hl0.
          rewrite F1 by (rewrite length_app; simpl; lia).
          now apply lookup_app_l. }
        repeat split; auto. discriminate.
    + intros Hn Hc Hm.
      pose proof (copy_all_keeps (deepcopy fuel) items IH
                    (h ++ [OList []]) ((l, length h) :: m)) as K.
      destruct (copy_all (deepcopy fuel) items
                  (h ++ [OList []], (l, length h) :: m))
        as [[h1 m1] [vs|e]]; cbn [fst snd] in *;
        (destruct K as (L1 & F1 & C1 & M1 & G1);
         [rewrite length_app; simpl; lia
         |now apply closed_app_placeholder
         |intros l0 y0; cbn [memo_find]; destruct (Nat.eqb l0 l);
            [intros [= <-]; lia|eauto]
         |]);
        rewrite length_app in L1; simpl in L1.
      * rewrite length_insert. split; [lia|]. split.
        { intros l0 Hl0. rewrite list_lookup_insert_ne by lia.
          rewrite F1 by (rewrite length_app; simpl; lia).
          now apply lookup_app_l. }
        split.
        { apply closed_insert; [exact C1|]. intros l' Hin.
          specialize (G1 vs eq_refl). rewrite List.Forall_forall in G1.
          exact (G1 _ Hin l' eq_refl). }
        split; [exact M1|]. intros v [= <-] l' [= <-]. lia.
      * split; [lia|]. split.
        { intros l0 Hl0.
          rewrite F1 by (rewrite length_app; simpl; lia).
          now apply lookup_app_l. }
        repeat split; auto. discriminate.
Qed.

End DeepcopyFrame.

(** ** What [_do_resolve] writes *)

Lemma dict_find_In {X : Type} k (d : list (string * X)) v :
  dict_find k d = Some v -> In v (map snd d).
Proof.
  induction d as [|[k' v'] d IH]; simpl; [discriminate|].
  destruct (String.eqb k k'); [intros [= ->]; now left|auto].
Qed.

Lemma In_dict_set {X : Type} k (x : X) d v :
  In v (map snd (dict_set k x d)) -> v = x \/ In v (map snd d).
Proof.
  induction d as [|[k' v'] d IH]; simpl; [intuition congruence|].
  destruct (String.eqb k k'); simpl; intuition congruence.
Qed.

Lemma In_dict_del {X : Type} k (d : list (string * X)) v :
  In v (map snd (dict_del k d)) -> In v (map snd d).
Proof.
  induction d as [|[k' v'] d IH]; simpl; [tauto|].
  destruct (String.eqb k k'); simpl; tauto.
Qed.

Lemma In_dict_update {X : Type} (d o : list (string * X)) v :
  In v (map snd (dict_update d o)) -> In v (map snd d) \/ In v (map snd o).
Proof.
  unfold dict_update. revert d.
  induction o as [|[k x] o IH]; intros d; simpl; [tauto|].
  intros H. apply IH in H as [H|H]; [|tauto].
  apply In_dict_set in H. simpl in H. intuition (subst; auto).
Qed.

Lemma In_list_insert {X : Type} (xs : list X) i x y :
  In y (<[i := x]> xs) -> y = x \/ In y xs.
Proof.
  revert i. induction xs as [|z xs IH]; intros [|i]; simpl;
    try (intuition congruence).
  intros [H|H]; [tauto|]. apply IH in H. tauto.
Qed.

Lemma child_within (A : nat -> Prop) (h : list object) l o v :
  closed h A -> A l -> h !! l = Some o -> In v (children o) -> within A v.
Proof.
  intros Hc Hl Ho Hv l' ->. apply (Hc l l' Hl). now exists o.
Qed.

Lemma kept_insert (A : nat -> Prop) (base h : list object) l o :
  kept A base h -> A l ->
  (forall v, In v (children o) -> within A v) ->
  kept A base (<[l := o]> h).
Proof.
  intros [Hc Hf] Hl Ho. split.
  - apply closed_insert; [exact Hc|]. intros l' Hin. exact (Ho _ Hin l' eq_refl).
  - intros l' Hl'. rewrite list_lookup_insert_ne; [now apply Hf|].
    intros ->. contradiction.
Qed.

Lemma for_each_kept {X : Type} (A : nat -> Prop) (base : list object)
      (xs : list X) body :
  (forall x h, kept A base h -> kept A base (fst (body x h))) ->
  forall h, kept A base h -> kept A base (fst (for_each xs body h)).
Proof.
  intros Hbody. induction xs as [|x xs IH]; intros h Hk; simpl; [exact Hk|].
  specialize (Hbody x h Hk).
  destruct (body x h) as [h' [e|]]; simpl in *; auto.
Qed.

Lemma heap_pairs_of_within (A : nat -> Prop) (h : list object) es :
  closed h A -> (forall e, In e es -> within A e) ->
  forall v, In v (map snd (fst (heap_pairs_of h es))) -> within A v.
Proof.
  intros Hc. induction es as [|e es IH]; intros Hes v; simpl; [tauto|].
  destruct (heap_pair_of h e) as [[k x]|ex] eqn:Hp; [|simpl; tauto].
  destruct (heap_pairs_of h es) as [kvs r]. simpl in *.
  intros [<-|Hv]; [|apply IH; auto].
  unfold heap_pair_of in Hp.
  destruct e as [| | |s|le].
  1-3: discriminate.
  - destruct s as [|a [|b [|c s]]]; try discriminate.
    injection Hp as <- <-. now apply within_scalar.
  - assert (Hle : A le) by (exact (Hes _ (or_introl eq_refl) le eq_refl)).
    destruct (h !! le) as [[items|items]|] eqn:Hl; try discriminate.
    + destruct items as [|[k1 v1] [|[k2 v2] [|]]]; try discriminate.
      injection Hp as <- <-. now apply within_scalar.
    + destruct items as [|x1 [|x2 [|x3 items]]]; try discriminate;
        destruct x1; try discriminate.
      injection Hp as <- <-.
      apply (child_within A h le _ _ Hc Hle Hl). simpl. tauto.
Qed.

Lemma update_items_within (A : nat -> Prop) (h : list object) found :
  closed h A -> within A found ->
  forall v, In v (map snd (fst (update_items h found))) -> within A v.
Proof.
  intros Hc Hf v. unfold update_items.
  destruct found as [| | |s|lf]; try (simpl; tauto).
  - destruct s; simpl; tauto.
  - assert (Hlf : A lf) by exact (Hf lf eq_refl).
    destruct (h !! lf) as [[items|es]|] eqn:Hl; [| |simpl; tauto].
    + simpl. intros Hv. exact (child_within A h lf _ _ Hc Hlf Hl Hv).
    + apply heap_pairs_of_within; [exact Hc|].
      intros e He. exact (child_within A h lf _ _ Hc Hlf Hl He).
Qed.

Lemma deep_get_within (A : nat -> Prop) (h : list object) keys :
  closed h A ->
  forall obj v, within A obj -> deep_get h obj keys = Ok v -> within A v.
Proof.
  intros Hc. induction keys as [|k keys IH]; intros obj v Ho; simpl.
  - now intros [= <-].
  - destruct obj as [| | | |l]; try discriminate.
    destruct (h !! l) as [[items|items]|] eqn:Hl; try discriminate.
    destruct (dict_find k items) as [x|] eqn:Hk; [|discriminate].
    apply IH.
    apply (child_within A h l _ _ Hc (Ho l eq_refl) Hl).
    exact (dict_find_In _ _ _ Hk).
Qed.

Section ResolveFrame.

Variable resolving : list object -> string -> result value.
Variable spec : value.
Variable A : nat -> Prop.
Variable base : list object.

Hypothesis resolving_in_A :
  forall h ref l, resolving h ref = Ok (VLoc l) -> A l.
Hypothesis spec_in_A : within A spec.

Lemma do_resolve_kept fuel :
  forall node h,
    kept A base h -> within A node ->
    kept A base (fst (_do_resolve resolving spec fuel node h))
    /\ forall v, snd (_do_resolve resolving spec fuel node h) = Ok v ->
                 within A v.
Proof.
  induction fuel as [|fuel IH]; intros node h Hk Hnode;
    cbn [_do_resolve]; [split; [exact Hk|discriminate]|].
  assert (Hstay : forall r : result value,
             (forall v, r = Ok v -> within A v) ->
             kept A base (fst (h, r))
             /\ forall v, snd (h, r) = Ok v -> within A v).
  { intros r Hr. split; [exact Hk|exact Hr]. }
  destruct node as [| | | |l];
    try (apply Hstay; intros v [= <-]; now apply within_scalar).
  assert (Hl : A l) by exact (Hnode l eq_refl).
  destruct (h !! l) as [[items|items]|] eqn:Hobj;
    [| |apply Hstay; now intros v [= <-]].
  - destruct (dict_find "$ref" items) as [[| | |ref|]|] eqn:Href;
      try (apply Hstay; discriminate).
    + (* a reference *)
      destruct (deep_get h spec (split_slash (string_from 2 ref)))
        as [found|e] eqn:Hdg.
      * pose proof (update_items_within A h found (proj1 Hk)
                      (deep_get_within A h _ (proj1 Hk) _ _ spec_in_A Hdg))
          as Hpairs.
        destruct (update_items h found) as [pairs stop]. cbn [fst] in Hpairs.
        assert (Hmerged : forall v, In v (map snd (dict_update items pairs))
                                    -> within A v).
        { intros v Hv. apply In_dict_update in Hv as [Hv|Hv]; [|auto].
          exact (child_within A h l _ _ (proj1 Hk) Hl Hobj Hv). }
        destruct stop as [e|]; cbn [fst snd].
        -- split; [|discriminate]. apply kept_insert; auto.
        -- split; [|now intros v [= <-]]. apply kept_insert; auto.
           intros v Hv. apply Hmerged. exact (In_dict_del _ _ _ Hv).
      * destruct e; try (apply Hstay; discriminate).
        apply Hstay. intros v Hv l' ->. eauto.
    + (* a mapping without [$ref] *)
      match goal with
      | |- context [for_each ?xs ?body h] =>
          destruct (for_each xs body h) as [h' stop] eqn:Hfe;
          assert (Hk' : kept A base h');
          [change h' with (fst (h', stop)); rewrite <- Hfe;
           apply for_each_kept; [|exact Hk]|]
      end.
      { intros i hx Hx.
        destruct (hx !! l) as [[now|now]|] eqn:Hnow; try exact Hx.
        destruct (now !! i) as [[k v]|] eqn:Hi; try exact Hx.
        assert (Hv : within A v).
        { apply (child_within A hx l _ _ (proj1 Hx) Hl Hnow).
          change v with (snd (k, v)). apply in_map.
          exact (lookup_In _ _ _ Hi). }
        destruct (IH v hx Hx Hv) as [K1 K2].
        destruct (_do_resolve resolving spec fuel v hx) as [h1 [v'|e']];
          cbn [fst snd] in *; try exact K1.
        unfold heap_setitem.
        destruct (h1 !! l) as [[items1|items1]|] eqn:H1; try exact K1.
        apply kept_insert; auto.
        intros x Hin. apply In_dict_set in Hin as [->|Hin]; auto.
        exact (child_within A h1 l _ _ (proj1 K1) Hl H1 Hin). }
      destruct stop; cbn [fst snd]; (split; [exact Hk'|]);
        [discriminate|now intros v [= <-]].
  - (* a list *)
    match goal with
    | |- context [for_each ?xs ?body h] =>
        destruct (for_each xs body h) as [h' stop] eqn:Hfe;
        assert (Hk' : kept A base h');
        [change h' with (fst (h', stop)); rewrite <- Hfe;
         apply for_each_kept; [|exact Hk]|]
    end.
    { intros i hx Hx.
      destruct (hx !! l) as [[now|now]|] eqn:Hnow; try exact Hx.
      destruct (now !! i) as [v|] eqn:Hi; try exact Hx.
      assert (Hv : within A v).
      { apply (child_within A hx l _ _ (proj1 Hx) Hl Hnow).
        exact (lookup_In _ _ _ Hi). }
      destruct (IH v hx Hx Hv) as [K1 K2].
      destruct (_do_resolve resolving spec fuel v hx) as [h1 [v'|e']];
        cbn [fst snd] in *; try exact K1.
      destruct (h1 !! l) as [[items1|items1]|] eqn:H1; try exact K1.
      apply kept_insert; auto.
      intros x Hin. apply In_list_insert in Hin as [->|Hin]; auto.
      exact (child_within A h1 l _ _ (proj1 K1) Hl H1 Hin). }
    destruct stop; cbn [fst snd]; (split; [exact Hk'|]);
      [discriminate|now intros v [= <-]].
Qed.

End ResolveFrame.

(** ** The caller's document *)

Lemma load_all_repr ts :
  Forall (fun t => forall h,
            repr (fst (load t h)) (length h) (length (fst (load t h)))
                 (snd (load t h)) t) ts ->
  forall h,
    Forall2 (repr (fst (load_all load ts h)) (length h)
                  (length (fst (load_all load ts h))))
            (snd (load_all load ts h)) ts.
Proof.
  induction 1 as [|t ts Ht _ IH]; intros h; [constructor|].
  rewrite load_all_cons. cbn [fst snd].
  destruct (load_extends t h) as [o1 E1].
  destruct (load_all_extends' ts (fst (load t h))) as (o2 & E2 & _).
  assert (L1 : length (fst (load t h)) = length h + length o1)
    by (rewrite E1; apply length_app).
  assert (L2 : length (fst (load_all load ts (fst (load t h))))
               = length h + length o1 + length o2)
    by (rewrite E2, length_app; lia).
  constructor.
  - eapply repr_mono; [| | |exact (Ht h)]; try lia.
    intros l Hl. rewrite E2. apply lookup_app_l. lia.
  - eapply Forall2_weaken; [|exact (IH (fst (load t h)))].
    intros x y Hxy. eapply repr_mono; [| | |exact Hxy]; try lia.
    reflexivity.
Qed.

(** A loaded document denotes its tree, through the objects that [load]
    made. *)
Lemma load_repr t :
  forall h,
    repr (fst (load t h)) (length h) (length (fst (load t h)))
         (snd (load t h)) t.
Proof.
  induction t as [| | | |ts IH|kts IH] using json_ind; intros h;
    try constructor.
  - rewrite load_list. cbn [fst snd].
    destruct (load_all_extends' ts h) as (o & E & _).
    pose proof (load_all_repr ts IH h) as R.
    remember (fst (load_all load ts h)) as hn.
    remember (snd (load_all load ts h)) as vs.
    assert (Ln : length hn = length h + length o)
      by (rewrite E; apply length_app).
    rewrite length_app. cbn [length].
    apply repr_list with (vs := vs); [lia|now apply list_lookup_middle|].
    eapply Forall2_weaken; [|exact R].
    intros x y Hxy. eapply repr_mono; [| | |exact Hxy]; try lia.
    intros l Hl. apply lookup_app_l. lia.
  - rewrite load_dict. cbn [fst snd].
    destruct (load_all_extends' (map snd kts) h) as (o & E & Lvs).
    pose proof (load_all_repr (map snd kts) IH h) as R.
    remember (fst (load_all load (map snd kts) h)) as hn.
    remember (snd (load_all load (map snd kts) h)) as vs.
    assert (Lk : length (map fst kts) = length vs)
      by (rewrite Lvs, !length_map; reflexivity).
    assert (Ln : length hn = length h + length o)
      by (rewrite E; apply length_app).
    rewrite length_app. cbn [length].
    apply repr_dict with (kvs := combine (map fst kts) vs);
      [lia|now apply list_lookup_middle|now apply map_fst_combine|].
    rewrite (map_snd_combine _ _ Lk).
    eapply Forall2_weaken; [|exact R].
    intros x y Hxy. eapply repr_mono; [| | |exact Hxy]; try lia.
    intros l Hl. apply lookup_app_l. lia.
Qed.

(** X18: a frame property of [resolve_refs] for any object graph, also one
    with shared nodes.  [resolve_refs] works on a deep copy of the document
    and uses the documents of the resolver as they are.  Let [store] be the
    objects of the documents that the resolver hands out (the reference
    store and what the handlers fetch), none of which refers to an object
    outside [store].  Then, whether [resolve_refs] returns or raises, every
    object of the heap that is not a store object is unchanged; so a
    document that shares no object with the store still denotes the same
    tree, field for field. *)
Theorem resolve_refs_frame_outside_store :
  forall (resolving : heap -> string -> result value) (store : nat -> Prop)
         (fuel : nat) (spec : value) (h : heap),
    closed h store ->
    (forall hx ref l,
        resolving hx ref = Ok (VLoc l) -> l < length h -> store l) ->
    (forall l, l < length h -> ~ store l ->
               fst (resolve_refs resolving fuel spec h) !! l = h !! l)
    /\ (forall t lo hi,
          repr h lo hi spec t -> hi <= length h ->
          (forall l, lo <= l < hi -> ~ store l) ->
          repr (fst (resolve_refs resolving fuel spec h)) lo hi spec t).
Proof.
  intros resolving store fuel spec h Hstore Hres.
  assert (Hframe : forall l, l < length h -> ~ store l ->
             fst (resolve_refs resolving fuel spec h) !! l = h !! l).
  { unfold resolve_refs.
    pose proof (deepcopy_keeps (length h) fuel spec h []) as K.
    destruct (deepcopy fuel spec (h, [])) as [[h1 m1] [copy|e]];
      cbn [fst snd] in *;
      (destruct K as (L1 & F1 & C1 & _ & G1);
       [lia
       |intros l l' Hl (o & Hlook & _);
        apply lookup_lt_Some in Hlook; lia
       |discriminate
       |]); [|intros l Hl _; now apply F1].
    set (A := fun l => store l \/ length h <= l).
    assert (Hk : kept A h1 h1).
    { split; [|reflexivity].
      intros l l' [Hl|Hl] Hp.
      - destruct (le_lt_dec (length h) l) as [Hge|Hlt].
        + right. exact (C1 l l' Hge Hp).
        + left. apply (Hstore l l' Hl).
          destruct Hp as (o & Hlook & Hin). exists o.
          now rewrite <- (F1 l Hlt).
      - right. exact (C1 l l' Hl Hp). }
    assert (HresA : forall hx ref l, resolving hx ref = Ok (VLoc l) -> A l).
    { intros hx ref l Hr. destruct (le_lt_dec (length h) l) as [Hge|Hlt].
      - now right.
      - left. eauto. }
    assert (Hcopy : within A copy).
    { intros l ->. right. exact (G1 _ eq_refl l eq_refl). }
    destruct (do_resolve_kept resolving copy A h1 HresA Hcopy fuel copy h1
                Hk Hcopy) as [[_ Hf] _].
    intros l Hl Hns. rewrite Hf; [now apply F1|].
    intros [Hs|Hge]; [contradiction|lia]. }
  split; [exact Hframe|].
  intros t lo hi Hr Hhi Hdisj.
  eapply repr_mono; [| | |exact Hr]; try lia.
  intros l Hl. apply Hframe; [lia|now apply Hdisj].
Qed.

Lemma resolve_refs_frame_outside_store_witness :
  repr (fst (resolve_refs (store_of "http://example.com/s.json" (VLoc 0)) 5
               (snd (load nested_ref_document
                          (fst (load stored_document []))))
               (fst (load nested_ref_document
                          (fst (load stored_document []))))))
       1 5
       (snd (load nested_ref_document (fst (load stored_document []))))
       nested_ref_document.
Proof.
  apply (proj2 (resolve_refs_frame_outside_store
                  (store_of "http://example.com/s.json" (VLoc 0))
                  (fun l => l = 0) 5
                  (snd (load nested_ref_document
                             (fst (load stored_document []))))
                  (fst (load nested_ref_document
                             (fst (load stored_document []))))
                  ltac:(intros l l' -> (o & Hlook & Hin);
                        injection Hlook as <-;
                        destruct Hin as [Hin|[]]; discriminate)
                  ltac:(intros hx ref l Hr _; unfold store_of in Hr;
                        destruct (String.eqb ref _);
                        [now injection Hr as <-|discriminate]))).
  - exact (load_repr nested_ref_document (fst (load stored_document []))).
  - simpl. lia.
  - intros l Hl. lia.
Defined.

(** Without the separation of X18 an object of the caller can change: with
    [store = {"http://example.com/s.json": spec["d"]}], an object of the
    caller's own document, and the node shared under ["p"] and ["q"] of
    [shared_node_heap], the copy of the shared node is visited twice, the
    second time [_do_resolve] walks into the stored object, and
    [spec["d"]["z"]] is rewritten from [{"$ref": "#/k"}] to [{"v": 1}].  (A
    document that is a tree is never touched, whatever the store holds.) *)
Lemma shared_store_object_is_rewritten :
  snd (resolve_refs (store_of "http://example.com/s.json" (VLoc 1)) 6
         (VLoc 5) shared_node_heap) = Ok (VLoc 6)
  /\ read 6 shared_node_heap (VLoc 5)
     = Some (JDict
               [("p", JDict [("x", JDict [("$ref",
                                           JStr "http://example.com/s.json")])]);
                ("q", JDict [("x", JDict [("$ref",
                                           JStr "http://example.com/s.json")])]);
                ("d", JDict [("z", JDict [("$ref", JStr "#/k")])]);
                ("k", JDict [("v", JInt 1)])])
  /\ read 6 (fst (resolve_refs
                    (store_of "http://example.com/s.json" (VLoc 1)) 6
                    (VLoc 5) shared_node_heap)) (VLoc 5)
     = Some (JDict
               [("p", JDict [("x", JDict [("$ref",
                                           JStr "http://example.com/s.json")])]);
                ("q", JDict [("x", JDict [("$ref",
                                           JStr "http://example.com/s.json")])]);
                ("d", JDict [("z", JDict [("v", JInt 1)])]);
                ("k", JDict [("v", JInt 1)])]).
Proof. repeat split; vm_compute; reflexivity. Qed.

(* ===================================================================== *)
(** * Further properties of the handlers                                   *)
(* ===================================================================== *)

Lemma gen_seq_done_l (g : gen) : gen_seq done g = g.
Proof. now destruct g. Qed.

Lemma gen_seq_Forall (P : ValidationError -> Prop) g1 g2 :
  Forall P (yielded g1) -> Forall P (yielded g2) ->
  Forall P (yielded (gen_seq g1 g2)).
Proof.
  intros H1 H2. unfold gen_seq. destruct (raised g1); [exact H1|].
  simpl. apply List.Forall_app. now split.
Qed.

Lemma gen_for_Forall {X : Type} (P : ValidationError -> Prop) (xs : list X)
      body :
  (forall x, In x xs -> Forall P (yielded (body x))) ->
  Forall P (yielded (gen_for xs body)).
Proof.
  induction xs as [|x xs IH]; intros H; simpl; [constructor|].
  apply gen_seq_Forall; [apply H; now left|].
  apply IH. intros y Hy. apply H. now right.
Qed.

Lemma gen_for_all_done {X : Type} (xs : list X) body :
  (forall x, In x xs -> body x = done) -> gen_for xs body = done.
Proof.
  induction xs as [|x xs IH]; intros H; simpl; [reflexivity|].
  rewrite (H x (or_introl eq_refl)), gen_seq_done_l.
  apply IH. intros y Hy. apply H. now right.
Qed.

(** One round of the loop of [validate_required]: nothing, or the error for
    [prop], and then the instance lacks [prop]. *)
Lemma required_prop_yields validator instance schema prop :
  yielded (required_prop validator instance schema prop) = []
  \/ (py_contains instance prop = Ok false
      /\ yielded (required_prop validator instance schema prop)
         = [required_error prop]).
Proof.
  unfold required_prop, required_error.
  destruct (py_contains instance prop) as [[|]|]; cbn [gen_try];
    [now left| |now left].
  destruct (is_None (py_get schema "properties")); [now right|].
  destruct (attr_get (py_get schema "properties") prop) as [sub|];
    cbn [gen_try]; [|now left].
  destruct (is_None sub); [now right|].
  destruct (required_exempt validator sub) as [[|]|]; cbn [gen_try];
    [now left|now right|now left].
Qed.

(** X1: whatever the validator, the schema and the value of [required],
    every error that [validate_required] yields is the required-property
    error of an item of [required] that the instance lacks; a property that
    is present is never reported. *)
Theorem validate_required_reports_missing_only :
  forall (validator : Validator) (required instance : json) (schema : dict),
    Forall (fun e =>
              exists prop props,
                e = required_error prop
                /\ py_iter required = Ok props
                /\ In prop props
                /\ py_contains instance prop = Ok false)
           (yielded (validate_required validator required instance schema)).
Proof.
  intros validator required instance schema. unfold validate_required.
  destruct (is_type instance (JStr "object")) as [[|]|]; cbn [gen_try negb];
    try constructor.
  destruct (py_iter required) as [props|] eqn:Hp; cbn [gen_try];
    [|constructor].
  apply gen_for_Forall. intros prop Hin.
  destruct (required_prop_yields validator instance schema prop)
    as [->|[Hc ->]]; constructor; [|constructor].
  exists prop, props. auto.
Qed.

(** X2: when the instance is an object that has every required name,
    [validate_required] yields nothing and raises nothing, whatever the
    schema holds under [properties]. *)
Theorem validate_required_all_present :
  forall (validator : Validator) (names : list string) (instance schema : dict),
    Forall (fun k => dict_has k instance = true) names ->
    validate_required validator (JList (map JStr names)) (JDict instance)
                      schema = done.
Proof.
  intros validator names instance schema Hall.
  unfold validate_required. cbn [is_type String.eqb Ascii.eqb Bool.eqb
                                 gen_try negb py_iter].
  apply gen_for_all_done. intros prop Hin.
  apply in_map_iff in Hin as (k & <- & Hk).
  rewrite List.Forall_forall in Hall.
  unfold required_prop. cbn [py_contains gen_try].
  now rewrite (Hall k Hk).
Qed.

Lemma validate_required_all_present_witness :
  validate_required (Draft4ResponseValidator unreached (JDict []) 1)
    (JList (map JStr ["id"; "name"]))
    (JDict [("name", JStr "n"); ("id", JInt 7)])
    [("required", JList [JStr "id"; JStr "name"]);
     ("properties", JInt 3)] = done.
Proof.
  apply (validate_required_all_present
           (Draft4ResponseValidator unreached (JDict []) 1)
           ["id"; "name"]).
  repeat constructor.
Defined.

(** X3: when the schema has no [properties], [validate_required] on an
    object yields exactly one error for each required name that the
    instance lacks, in the order of [required], and nothing else. *)
Theorem validate_required_without_properties :
  forall (validator : Validator) (names : list string) (instance schema : dict),
    py_get schema "properties" = JNull ->
    validate_required validator (JList (map JStr names)) (JDict instance)
                      schema
    = Gen (map (fun k => required_error (JStr k))
               (List.filter (fun k => negb (dict_has k instance)) names))
          None.
Proof.
  intros validator names instance schema Hp.
  unfold validate_required. cbn [is_type String.eqb Ascii.eqb Bool.eqb
                                 gen_try negb py_iter].
  induction names as [|k names IH]; [reflexivity|].
  cbn [map gen_for List.filter]. rewrite IH.
  unfold required_prop. cbn [py_contains gen_try]. rewrite Hp.
  destruct (dict_has k instance); reflexivity.
Qed.

Lemma validate_required_without_properties_witness :
  validate_required (Draft4RequestValidator unreached (JDict []) 1)
    (JList (map JStr ["a"; "b"; "c"])) (JDict [("b", JInt 1)])
    [("required", JList [JStr "a"; JStr "b"; JStr "c"])]
  = Gen [required_error (JStr "a"); required_error (JStr "c")] None.
Proof.
  apply (validate_required_without_properties
           (Draft4RequestValidator unreached (JDict []) 1) ["a"; "b"; "c"]
           [("b", JInt 1)]).
  reflexivity.
Defined.

(** ** [validate_enum] and [validate_type] *)

Lemma dict_find_distinct {X : Type} (d : list (string * X)) k v :
  keys_distinct (map fst d) = true -> In (k, v) d -> dict_find k d = Some v.
Proof.
  induction d as [|[k' v'] d IH]; simpl; intros Hd Hin; [contradiction|].
  apply andb_true_iff in Hd as [Hk Hd]. apply negb_true_iff in Hk.
  destruct Hin as [[= -> ->]|Hin].
  - now rewrite String.eqb_refl.
  - assert (Hne : String.eqb k' k = false).
    { apply (existsb_false_In _ _ _ Hk).
      change k with (fst (k, v)). now apply in_map. }
    rewrite String.eqb_sym, Hne. auto.
Qed.

(** Python's [==] holds between a value and itself. *)
Lemma py_eq_refl t : well_formed t = true -> py_eq t t = true.
Proof.
  induction t as [|b|n|s|ts IH|kts IH] using json_ind; intros Hwf;
    cbn [py_eq].
  - reflexivity.
  - now destruct b.
  - apply Z.eqb_refl.
  - apply String.eqb_refl.
  - cbn [well_formed] in Hwf.
    induction IH as [|t ts Ht _ IHts]; [reflexivity|].
    cbn [forallb] in Hwf. apply andb_true_iff in Hwf as [H1 H2].
    now rewrite (Ht H1), (IHts H2).
  - cbn [well_formed] in Hwf. apply andb_true_iff in Hwf as [Hkeys Hwf].
    rewrite Nat.eqb_refl. cbn [andb].
    assert (Hsub : forall kt, In kt kts -> In kt kts) by auto.
    revert Hsub. generalize kts at 1 4 as rest.
    rewrite forallb_forall in Hwf.
    rewrite List.Forall_forall in IH.
    induction rest as [|[k v] rest IHrest]; intros Hsub; [reflexivity|].
    rewrite (dict_find_distinct kts k v Hkeys (Hsub _ (or_introl eq_refl))).
    rewrite (IH v).
    + apply IHrest. intros kt Hkt. apply Hsub. now right.
    + change v with (snd (k, v)). apply in_map. apply Hsub. now left.
    + apply (Hwf (k, v)). apply Hsub. now left.
Qed.

(** X4: an instance that is one of the enumerated values always passes
    [validate_enum]: membership is Python's [in], and a value is equal to
    itself. *)
Theorem validate_enum_listed :
  forall (validator : Validator) (enums : list json) (instance : json)
         (schema : dict),
    well_formed instance = true ->
    In instance enums ->
    validate_enum validator (JList enums) instance schema = done.
Proof.
  intros validator enums instance schema Hwf Hin. unfold validate_enum.
  destruct (nullable_short_circuit instance schema); [reflexivity|].
  cbn [py_contains gen_try].
  assert (H : existsb (py_eq instance) enums = true).
  { apply existsb_exists. exists instance. split; [exact Hin|].
    now apply py_eq_refl. }
  now rewrite H.
Qed.

Lemma validate_enum_listed_witness :
  validate_enum (Draft4RequestValidator unreached (JDict []) 1)
    (JList [JStr "a"; JDict [("k", JList [JInt 1; JNull])]])
    (JDict [("k", JList [JInt 1; JNull])]) [] = done.
Proof.
  apply (validate_enum_listed (Draft4RequestValidator unreached (JDict []) 1)
           [JStr "a"; JDict [("k", JList [JInt 1; JNull])]]
           (JDict [("k", JList [JInt 1; JNull])]) []).
  - reflexivity.
  - right. left. reflexivity.
Defined.

Lemma any_is_type_first_match instance before t after :
  Forall (fun t' => is_type instance t' = Ok false) before ->
  is_type instance t = Ok true ->
  any_is_type instance (before ++ t :: after) = Ok true.
Proof.
  intros Hb Ht. induction Hb as [|t' before Ht' _ IH]; simpl.
  - now rewrite Ht.
  - now rewrite Ht'.
Qed.

(** X5: [validate_type] stops at the first declared type that the instance
    has: what is declared after it is never looked at, so an unknown type
    name there raises nothing. *)
Theorem validate_type_stops_at_first_match :
  forall (validator : Validator) (before after : list json) (t instance : json)
         (schema : dict),
    Forall (fun t' => is_type instance t' = Ok false) before ->
    is_type instance t = Ok true ->
    validate_type validator (JList (before ++ t :: after)) instance schema
    = done.
Proof.
  intros validator before after t instance schema Hb Ht.
  unfold validate_type.
  destruct (nullable_short_circuit instance schema); [reflexivity|].
  cbn [ensure_list py_iter gen_try].
  now rewrite (any_is_type_first_match instance before t after Hb Ht).
Qed.

Lemma validate_type_stops_at_first_match_witness :
  validate_type (Draft4RequestValidator unreached (JDict []) 1)
    (JList ([JStr "string"] ++ JStr "integer" :: [JStr "no-such-type"]))
    (JInt 3) [] = done.
Proof.
  apply (validate_type_stops_at_first_match
           (Draft4RequestValidator unreached (JDict []) 1)
           [JStr "string"] [JStr "no-such-type"] (JStr "integer") (JInt 3) []).
  - repeat constructor.
  - reflexivity.
Defined.

(** ** [validate_oneOf] *)

(** When the first loop of [validate_oneOf] ends without a match, it has
    consumed the enumeration and collected the errors of every subschema. *)
Lemma oneOf_first_no_match validator instance subs :
  forall acc all rest,
    oneOf_first validator instance subs acc = Ok (all, None, rest) ->
    all = acc ++ flat_map (branch_errors validator instance) subs
    /\ rest = [].
Proof.
  induction subs as [|[i s] subs IH]; intros acc all rest; cbn [oneOf_first].
  - intros [= <- <-]. cbn [flat_map]. now rewrite app_nil_r.
  - unfold gen_list.
    destruct (raised (descend validator instance s None (Some (Index i))))
      eqn:Hr; [discriminate|].
    destruct (yielded (descend validator instance s None (Some (Index i))))
      as [|e errs] eqn:Hy; [discriminate|].
    intros H. destruct (IH _ _ _ H) as [-> ->]. split; [|reflexivity].
    cbn [flat_map]. unfold branch_errors at 2. cbn [fst snd].
    now rewrite Hy, app_assoc.
Qed.

(** X6: whatever its arguments, [validate_oneOf] yields at most one error,
    and that error is one of its own two: "is not valid under any of the
    given schemas", whose context is exactly the errors that the subschemas
    yielded, in order, each under its index; or "is valid under each of",
    with no context.  An error of a subschema is never yielded as such. *)
Theorem validate_oneOf_at_most_one_error :
  forall (validator : Validator) (oneOf instance : json) (schema : dict),
    length (yielded (validate_oneOf validator oneOf instance schema)) <= 1
    /\ Forall
         (fun e =>
            (exists items,
                py_iter oneOf = Ok items
                /\ e = new_error (not_valid_under_any instance)
                                 (flat_map (branch_errors validator instance)
                                           (enumerate items)))
            \/ (exists valid,
                   e = new_error (valid_under_each instance valid) []))
         (yielded (validate_oneOf validator oneOf instance schema)).
Proof.
  intros validator oneOf instance schema. unfold validate_oneOf.
  destruct (nullable_short_circuit instance schema);
    [split; [simpl; lia|constructor]|].
  destruct (py_iter oneOf) as [items|]; cbn [gen_try];
    [|split; [simpl; lia|constructor]].
  destruct (oneOf_first validator instance (enumerate items) [])
    as [[[all_errors [first_valid|]] rest]|] eqn:Hfirst; cbn [gen_try];
    [| |split; [simpl; lia|constructor]].
  - destruct (oneOf_more validator instance rest) as [[|s more]|];
      cbn [gen_try yielded done throw yield];
      (split; [simpl; lia|]); try (constructor; fail).
    constructor; [|constructor]. right. eexists. reflexivity.
  - destruct (oneOf_first_no_match _ _ _ _ _ _ Hfirst) as [-> ->].
    cbn [oneOf_more gen_try gen_seq yield done raised yielded app].
    split; [simpl; lia|]. constructor; [|constructor].
    left. exists items. split; reflexivity.
Qed.

Lemma filter_Permutation {X : Type} (f : X -> bool) xs ys :
  Permutation xs ys -> Permutation (List.filter f xs) (List.filter f ys).
Proof.
  induction 1 as [|x xs ys _ IH|x y xs|xs ys zs _ IH1 _ IH2]; simpl.
  - constructor.
  - destruct (f x); [now constructor|exact IH].
  - destruct (f x), (f y); try reflexivity. constructor.
  - now transitivity (List.filter f ys).
Qed.

(** [validate_oneOf] yields nothing exactly when one subschema accepts. *)
Lemma validate_oneOf_done_iff validator instance schema subs :
  nullable_short_circuit instance schema = false ->
  Forall (fun s => raised (iter_errors validator instance s) = None) subs ->
  validate_oneOf validator (JList subs) instance schema = done
  <-> length (List.filter (accepts validator instance) subs) = 1.
Proof.
  intros Hnull Hsubs.
  unfold validate_oneOf. rewrite Hnull. cbn [py_iter gen_try].
  unfold enumerate.
  pose proof (oneOf_first_filter validator instance subs Hsubs 0 []) as H1.
  destruct (List.filter (accepts validator instance) subs) as [|first more].
  - rewrite H1. simpl. split; [discriminate|lia].
  - destruct H1 as (acc' & k & rest & -> & Hmore & Hrest). cbn [gen_try].
    rewrite (oneOf_more_filter _ _ _ k Hrest), Hmore. cbn [gen_try].
    destruct more; simpl; split; try reflexivity; try discriminate; lia.
Qed.

(** X7: whether [validate_oneOf] passes does not depend on the order of the
    subschemas: once the nullable test does not apply and the subschemas
    validate without an exception, a reordered list of subschemas yields
    nothing exactly when the original list does. *)
Theorem validate_oneOf_order_irrelevant :
  forall (validator : Validator) (instance : json) (schema : dict)
         (subs subs' : list json),
    nullable_short_circuit instance schema = false ->
    Forall (fun s => raised (iter_errors validator instance s) = None) subs ->
    Permutation subs subs' ->
    (validate_oneOf validator (JList subs) instance schema = done
     <-> validate_oneOf validator (JList subs') instance schema = done).
Proof.
  intros validator instance schema subs subs' Hnull Hsubs Hperm.
  assert (Hsubs' : Forall (fun s => raised (iter_errors validator instance s)
                                    = None) subs').
  { apply List.Forall_forall. intros s Hs.
    rewrite List.Forall_forall in Hsubs. apply Hsubs.
    apply (Permutation_in s (Permutation_sym Hperm) Hs). }
  rewrite (validate_oneOf_done_iff _ _ _ _ Hnull Hsubs).
  rewrite (validate_oneOf_done_iff _ _ _ _ Hnull Hsubs').
  now rewrite (Permutation_length
                 (filter_Permutation (accepts validator instance) _ _ Hperm)).
Qed.

Lemma validate_oneOf_order_irrelevant_witness :
  validate_oneOf (Draft4RequestValidator unreached (JDict []) 2)
    (JList [JDict [("type", JStr "string")]; JDict [("type", JStr "number")]])
    (JInt 5) [] = done
  <-> validate_oneOf (Draft4RequestValidator unreached (JDict []) 2)
        (JList [JDict [("type", JStr "number")];
                JDict [("type", JStr "string")]])
        (JInt 5) [] = done.
Proof.
  apply (validate_oneOf_order_irrelevant
           (Draft4RequestValidator unreached (JDict []) 2)
           (JInt 5) []
           [JDict [("type", JStr "string")]; JDict [("type", JStr "number")]]
           [JDict [("type", JStr "number")]; JDict [("type", JStr "string")]]).
  - reflexivity.
  - repeat constructor.
  - apply perm_swap.
Defined.

(** ** [validate_properties] *)

Lemma gen_for_filter {X : Type} (keep : X -> bool) (xs : list X) body :
  (forall x, keep x = false -> body x = done) ->
  gen_for xs body = gen_for (List.filter keep xs) body.
Proof.
  intros Hdrop. induction xs as [|x xs IH]; [reflexivity|].
  cbn [gen_for List.filter]. destruct (keep x) eqn:Hx.
  - cbn [gen_for]. now rewrite IH.
  - now rewrite (Hdrop x Hx), gen_seq_done_l.
Qed.

Lemma properties_loop_filter validator props instance :
  properties_loop validator (JDict props) (JDict instance)
  = properties_loop validator
      (JDict (List.filter (fun kv => dict_has (fst kv) instance) props))
      (JDict instance).
Proof.
  unfold properties_loop. apply gen_for_filter.
  intros [k sub] Hk. cbn [fst snd py_contains gen_try] in *.
  now rewrite Hk.
Qed.

(** X8: [validate_properties] looks only at the declared properties that
    the instance has: the declarations of absent properties can be dropped
    without changing the result, and when the instance has none of the
    declared properties nothing is yielded or raised, whatever the
    subschemas are. *)
Theorem validate_properties_present_only :
  forall (validator : Validator) (props : dict) (instance schema : dict),
    validate_properties validator (JDict props) (JDict instance) schema
    = validate_properties validator
        (JDict (List.filter (fun kv => dict_has (fst kv) instance) props))
        (JDict instance) schema
    /\ (List.filter (fun kv => dict_has (fst kv) instance) props = [] ->
        validate_properties validator (JDict props) (JDict instance) schema
        = done).
Proof.
  intros validator props instance schema.
  assert (H : validate_properties validator (JDict props) (JDict instance)
                schema
              = validate_properties validator
                  (JDict (List.filter (fun kv => dict_has (fst kv) instance)
                                      props))
                  (JDict instance) schema).
  { unfold validate_properties.
    cbn [nullable_short_circuit is_None andb is_type String.eqb Ascii.eqb
         Bool.eqb gen_try negb].
    apply properties_loop_filter. }
  split; [exact H|]. intros Hnone. rewrite H, Hnone. reflexivity.
Qed.

Lemma validate_properties_present_only_witness :
  validate_properties (Draft4ResponseValidator unreached (JDict []) 1)
    (JDict [("a", JDict [("type", JStr "string")])])
    (JDict [("b", JInt 1)]) []
  = done.
Proof.
  apply (proj2 (validate_properties_present_only
                  (Draft4ResponseValidator unreached (JDict []) 1)
                  [("a", JDict [("type", JStr "string")])]
                  [("b", JInt 1)] [])).
  reflexivity.
Defined.

(** X9: every error that [validate_properties] yields comes from a declared
    property that the instance has, and carries that property's name at the
    head of its path and of its schema path. *)
Theorem validate_properties_error_paths :
  forall (validator : Validator) (props : dict) (instance : json)
         (schema : dict),
    Forall (fun e =>
              exists k sub,
                In (k, sub) props
                /\ py_contains instance (JStr k) = Ok true
                /\ hd_error (err_path e) = Some (Key k)
                /\ hd_error (err_schema_path e) = Some (Key k))
           (yielded (validate_properties validator (JDict props) instance
                                         schema)).
Proof.
  intros validator props instance schema. unfold validate_properties.
  destruct (nullable_short_circuit instance schema); [constructor|].
  destruct (is_type instance (JStr "object")) as [[|]|]; cbn [gen_try negb];
    try constructor.
  unfold properties_loop. apply gen_for_Forall. intros [k sub] Hin.
  cbn [fst snd].
  destruct (py_contains instance (JStr k)) as [[|]|] eqn:Hc; cbn [gen_try];
    try constructor.
  destruct (py_getitem instance k) as [value|]; cbn [gen_try];
    [|constructor].
  unfold descend, gen_map. cbn [yielded].
  apply List.Forall_forall. intros e He.
  apply in_map_iff in He as (e0 & <- & _).
  exists k, sub. auto.
Qed.

(** ** The two classes: the read-only and write-only markers *)

Lemma gen_seq_raised_None g1 g2 :
  raised (gen_seq g1 g2) = None ->
  raised g1 = None /\ raised g2 = None
  /\ yielded (gen_seq g1 g2) = yielded g1 ++ yielded g2.
Proof.
  unfold gen_seq. destruct (raised g1) eqn:H1; simpl; intros H.
  - congruence.
  - auto.
Qed.

(** In a loop that raises nothing, every round raises nothing and its
    errors are among the errors of the loop. *)
Lemma gen_for_round {X : Type} (xs : list X) body x :
  raised (gen_for xs body) = None -> In x xs ->
  raised (body x) = None
  /\ forall e, In e (yielded (body x)) -> In e (yielded (gen_for xs body)).
Proof.
  induction xs as [|y xs IH]; simpl; intros Hr Hin; [contradiction|].
  apply gen_seq_raised_None in Hr as (Hy & Hrest & ->).
  destruct Hin as [->|Hin].
  - split; [exact Hy|]. intros e He. apply in_or_app. now left.
  - destruct (IH Hrest Hin) as [Hx Hin']. split; [exact Hx|].
    intros e He. apply in_or_app. right. auto.
Qed.

(** The errors of a keyword's handler are errors of the whole validation,
    with the keyword in front of their schema path. *)
Lemma run_validator_keyword table root fuel instance schema k v validator e :
  is_None (py_get schema "$ref") = true ->
  In (k, v) schema ->
  dict_find k table = Some validator ->
  String.eqb k "$ref" = false ->
  raised (run_validator table root (S fuel) instance (JDict schema)) = None ->
  In e (yielded (validator (instantiate table root fuel) v instance schema)) ->
  In (prepend_schema_path (Some (Key k)) e)
     (yielded (run_validator table root (S fuel) instance (JDict schema))).
Proof.
  intros Href Hin Hfind Hk Hr He.
  cbn [run_validator is_None] in Hr |- *. rewrite Href in Hr |- *.
  destruct (gen_for_round _ _ (k, v) Hr Hin) as [_ Hround].
  apply Hround. cbn [fst snd]. rewrite Hfind, Hk.
  unfold gen_map. cbn [yielded]. now apply in_map.
Qed.

(** X10: under the request validator a schema that has no [$ref] and
    carries the key [readOnly] rejects every instance that reaches it,
    whatever the value of [readOnly] is (also [false]): unless the
    validation raises, it yields the "Property is read-only" error.  (A
    schema whose [$ref] is not [None] is given to the [$ref] handler alone,
    and its other keys are not looked at.) *)
Theorem request_rejects_readOnly :
  forall (draft4 : string -> handler) (root : json) (fuel : nat)
         (instance v : json)
         (schema : dict),
    is_None (py_get schema "$ref") = true ->
    In ("readOnly", v) schema ->
    raised (iter_errors (Draft4RequestValidator draft4 root (S fuel)) instance
                        (JDict schema)) = None ->
    In (mkError property_is_read_only [] [Key "readOnly"] [])
       (yielded (iter_errors (Draft4RequestValidator draft4 root (S fuel))
                             instance (JDict schema))).
Proof.
  intros draft4 root fuel instance v schema Href Hin Hr.
  apply (run_validator_keyword (Draft4RequestValidator_VALIDATORS draft4)
           root fuel instance schema "readOnly" v validate_readOnly
           (new_error property_is_read_only []) Href Hin);
    [reflexivity|reflexivity|exact Hr|now left].
Qed.

Lemma request_rejects_readOnly_witness :
  In (mkError property_is_read_only [] [Key "readOnly"] [])
     (yielded (iter_errors (Draft4RequestValidator unreached (JDict []) 2)
                 (JDict [("a", JInt 1)])
                 (JDict [("properties", JDict [("a", JNull)]);
                         ("readOnly", JBool false)]))).
Proof.
  apply (request_rejects_readOnly unreached (JDict []) 1
           (JDict [("a", JInt 1)]) (JBool false)
           [("properties", JDict [("a", JNull)]);
            ("readOnly", JBool false)]).
  - reflexivity.
  - right. left. reflexivity.
  - reflexivity.
Defined.

(** X11: under the response validator a schema that has no [$ref] and
    carries the key [writeOnly] or the key [x-writeOnly] rejects every
    instance that reaches it, whatever the value of the key: unless the
    validation raises, it yields the "Property is write-only" error.  (A
    schema whose [$ref] is not [None] is given to the [$ref] handler alone,
    and its other keys are not looked at.) *)
Theorem response_rejects_writeOnly :
  forall (draft4 : string -> handler) (root : json) (fuel : nat)
         (instance v : json)
         (schema : dict) (k : string),
    is_None (py_get schema "$ref") = true ->
    k = "writeOnly" \/ k = "x-writeOnly" ->
    In (k, v) schema ->
    raised (iter_errors (Draft4ResponseValidator draft4 root (S fuel)) instance
                        (JDict schema)) = None ->
    In (mkError property_is_write_only [] [Key k] [])
       (yielded (iter_errors (Draft4ResponseValidator draft4 root (S fuel))
                             instance (JDict schema))).
Proof.
  intros draft4 root fuel instance v schema k Href [-> | ->] Hin Hr.
  - apply (run_validator_keyword (Draft4ResponseValidator_VALIDATORS draft4)
             root fuel instance schema "writeOnly" v validate_writeOnly
             (new_error property_is_write_only []) Href Hin);
      [reflexivity|reflexivity|exact Hr|now left].
  - apply (run_validator_keyword (Draft4ResponseValidator_VALIDATORS draft4)
             root fuel instance schema "x-writeOnly" v validate_writeOnly
             (new_error property_is_write_only []) Href Hin);
      [reflexivity|reflexivity|exact Hr|now left].
Qed.

Lemma response_rejects_writeOnly_witness :
  In (mkError property_is_write_only [] [Key "x-writeOnly"] [])
     (yielded (iter_errors (Draft4ResponseValidator unreached (JDict []) 1)
                 (JStr "x")
                 (JDict [("type", JStr "string");
                         ("x-writeOnly", JBool true)]))).
Proof.
  apply (response_rejects_writeOnly unreached (JDict []) 0 (JStr "x")
           (JBool true)
           [("type", JStr "string"); ("x-writeOnly", JBool true)]
           "x-writeOnly").
  - reflexivity.
  - right. reflexivity.
  - right. left. reflexivity.
  - reflexivity.
Defined.

Lemma registered_find table root fuel k :
  registered (instantiate table root fuel) k = false ->
  dict_find k table = None.
Proof.
  unfold registered, instantiate. cbn [VALIDATORS].
  rewrite <- dict_has_keys. unfold dict_has.
  now destruct (dict_find k table).
Qed.

Lemma dict_find_pair {X : Type} k (d : list (string * X)) v :
  dict_find k d = Some v -> In (k, v) d.
Proof.
  induction d as [|[k' v'] d IH]; simpl; [discriminate|].
  destruct (String.eqb_spec k k') as [->|Hne].
  - intros [= ->]. now left.
  - intros H. right. auto.
Qed.

Lemma run_validator_unregistered table root fuel instance schema :
  Forall (fun kv => dict_find (fst kv) table = None) schema ->
  run_validator table root (S fuel) instance (JDict schema) = done.
Proof.
  intros Hall. rewrite List.Forall_forall in Hall. cbn [run_validator is_None].
  destruct (is_None (py_get schema "$ref")) eqn:Href.
  - apply gen_for_all_done. intros kv Hkv. now rewrite (Hall kv Hkv).
  - cbn [gen_for fst snd].
    assert (Hfind : dict_find "$ref" table = None).
    { unfold py_get in Href.
      destruct (dict_find "$ref" schema) as [r|] eqn:Hs; [|discriminate].
      exact (Hall _ (dict_find_pair _ _ _ Hs)). }
    now rewrite Hfind.
Qed.

(** X12: a schema none of whose keys is registered by the validator class
    accepts every instance: keys such as [nullable], [x-nullable] or
    [description] are no keywords of their own, the request validator
    ignores [writeOnly] and [x-writeOnly], and the response validator
    ignores [readOnly]. *)
Theorem unregistered_keys_are_ignored :
  forall (draft4 : string -> handler) (root : json) (fuel : nat)
         (instance : json)
         (schema : dict),
    (Forall (fun kv => registered (Draft4RequestValidator draft4 root fuel)
                                  (fst kv) = false) schema ->
     iter_errors (Draft4RequestValidator draft4 root (S fuel)) instance
                 (JDict schema) = done)
    /\ (Forall (fun kv => registered (Draft4ResponseValidator draft4 root fuel)
                                     (fst kv) = false) schema ->
        iter_errors (Draft4ResponseValidator draft4 root (S fuel)) instance
                    (JDict schema) = done).
Proof.
  intros draft4 root fuel instance schema.
  split; intros Hall; apply run_validator_unregistered;
    (eapply List.Forall_impl; [|exact Hall]);
    intros kv Hkv; exact (registered_find _ _ _ _ Hkv).
Qed.

Lemma unregistered_keys_are_ignored_witness :
  iter_errors (Draft4RequestValidator unreached (JDict []) 1) (JInt 3)
    (JDict [("nullable", JBool true); ("writeOnly", JBool true);
            ("description", JStr "d")]) = done
  /\ iter_errors (Draft4ResponseValidator unreached (JDict []) 1) (JInt 3)
       (JDict [("x-nullable", JBool true); ("readOnly", JBool true)])
     = done.
Proof.
  split.
  - apply (proj1 (unregistered_keys_are_ignored unreached (JDict []) 0 (JInt 3)
                    [("nullable", JBool true); ("writeOnly", JBool true);
                     ("description", JStr "d")])).
    repeat constructor.
  - apply (proj2 (unregistered_keys_are_ignored unreached (JDict []) 0 (JInt 3)
                    [("x-nullable", JBool true); ("readOnly", JBool true)])).
    repeat constructor.
Defined.

Lemma run_validator_keyword_quiet table root fuel instance schema k v
      validator :
  is_None (py_get schema "$ref") = true ->
  In (k, v) schema ->
  dict_find k table = Some validator ->
  raised (run_validator table root (S fuel) instance (JDict schema)) = None ->
  raised (validator (instantiate table root fuel) v instance schema) = None.
Proof.
  intros Href Hin Hfind Hr.
  cbn [run_validator is_None] in Hr. rewrite Href in Hr.
  destruct (gen_for_round _ _ (k, v) Hr Hin) as [Hq _].
  cbn [fst snd] in Hq. now rewrite Hfind in Hq.
Qed.

(** X13: under the request validator, when neither the schema nor the
    subschema of a property has a [$ref], an object that supplies a property
    whose subschema carries [readOnly] is rejected: unless the validation
    raises, it yields the "Property is read-only" error at that property,
    with schema path [properties], the property, [readOnly]. *)
Theorem request_rejects_supplied_readOnly :
  forall (draft4 : string -> handler) (root : json) (fuel : nat)
         (instance schema props sub : dict) (p : string) (value v : json),
    is_None (py_get schema "$ref") = true ->
    In ("properties", JDict props) schema ->
    In (p, JDict sub) props ->
    is_None (py_get sub "$ref") = true ->
    In ("readOnly", v) sub ->
    dict_find p instance = Some value ->
    raised (iter_errors (Draft4RequestValidator draft4 root (S (S fuel)))
                        (JDict instance) (JDict schema)) = None ->
    In (mkError property_is_read_only [Key p]
                [Key "properties"; Key p; Key "readOnly"] [])
       (yielded (iter_errors (Draft4RequestValidator draft4 root (S (S fuel)))
                             (JDict instance) (JDict schema))).
Proof.
  intros draft4 root fuel instance schema props sub p value v
         Href Hprops Hp Hsubref Hro Hvalue Hr.
  set (table := Draft4RequestValidator_VALIDATORS draft4) in *.
  change (iter_errors (Draft4RequestValidator draft4 root (S (S fuel))))
    with (run_validator table root (S (S fuel))) in *.
  assert (Hfind : dict_find "properties" table = Some properties_draft4)
    by reflexivity.
  pose proof (run_validator_keyword_quiet table root (S fuel) _ _ _ _ _
                Href Hprops Hfind Hr) as Hquiet.
  apply (run_validator_keyword table root (S fuel) (JDict instance) schema
           "properties" (JDict props) properties_draft4
           (mkError property_is_read_only [Key p] [Key p; Key "readOnly"] [])
           Href Hprops Hfind eq_refl Hr).
  unfold properties_draft4 in Hquiet |- *.
  cbn [is_type String.eqb Ascii.eqb Bool.eqb gen_try negb] in Hquiet |- *.
  unfold properties_loop in Hquiet |- *.
  destruct (gen_for_round _ _ (p, JDict sub) Hquiet Hp) as [Hround Hin].
  apply Hin. clear Hin.
  cbn [fst snd py_contains py_getitem] in Hround |- *.
  unfold dict_has in Hround |- *. rewrite Hvalue in Hround |- *.
  cbn [gen_try] in Hround |- *.
  unfold descend, gen_map in Hround |- *. cbn [yielded raised] in Hround |- *.
  change (iter_errors (instantiate table root (S fuel)))
    with (run_validator table root (S fuel)) in *.
  pose proof (run_validator_keyword table root fuel value sub "readOnly" v
                validate_readOnly (new_error property_is_read_only [])
                Hsubref Hro eq_refl eq_refl Hround (or_introl eq_refl))
    as Hinner.
  apply (in_map (fun e => prepend_schema_path (Some (Key p))
                            (prepend_path (Some (Key p)) e))) in Hinner.
  exact Hinner.
Qed.

Lemma request_rejects_supplied_readOnly_witness :
  In (mkError property_is_read_only [Key "id"]
              [Key "properties"; Key "id"; Key "readOnly"] [])
     (yielded (iter_errors (Draft4RequestValidator unreached (JDict []) 2)
                 (JDict [("id", JStr "7")]) (JDict required_id_schema))).
Proof.
  apply (request_rejects_supplied_readOnly unreached (JDict []) 0
           [("id", JStr "7")] required_id_schema
           [("id", JDict [("type", JStr "string"); ("readOnly", JBool true)])]
           [("type", JStr "string"); ("readOnly", JBool true)]
           "id" (JStr "7") (JBool true)).
  - reflexivity.
  - right. left. reflexivity.
  - left. reflexivity.
  - reflexivity.
  - right. left. reflexivity.
  - reflexivity.
  - reflexivity.
Defined.

(* ===================================================================== *)
(** * Further properties of [resolve_refs]                                 *)
(* ===================================================================== *)

Lemma split_slash_no_slash s : no_slash s = true -> split_slash s = [s].
Proof.
  induction s as [|c s IH]; simpl; [reflexivity|].
  intros H. apply andb_true_iff in H as [Hc Hs].
  apply negb_true_iff in Hc. rewrite Hc, (IH Hs). reflexivity.
Qed.

Lemma split_slash_app k rest :
  no_slash k = true ->
  split_slash (String.append k (String "/"%char rest))
  = k :: split_slash rest.
Proof.
  induction k as [|c k IH]; simpl; [reflexivity|].
  intros H. apply andb_true_iff in H as [Hc Hk].
  apply negb_true_iff in Hc. rewrite Hc, (IH Hk). reflexivity.
Qed.

Lemma split_slash_join keys :
  keys <> [] -> forallb no_slash keys = true ->
  split_slash (join_slash keys) = keys.
Proof.
  induction keys as [|k keys IH]; intros Hne Hall; [contradiction|].
  cbn [forallb] in Hall. apply andb_true_iff in Hall as [Hk Hall].
  destruct keys as [|k' keys].
  - cbn [join_slash]. now apply split_slash_no_slash.
  - change (join_slash (k :: k' :: keys))
      with (String.append k (String "/"%char (join_slash (k' :: keys)))).
    rewrite (split_slash_app _ _ Hk). f_equal. apply IH; [discriminate|].
    exact Hall.
Qed.

(** X14: the path that [_do_resolve] reads off a reference,
    [ref[2:].split("/")], gives back the keys of a pointer made of two
    leading characters and the keys joined by ["/"], whenever there is at
    least one key and no key contains ["/"]; the two leading characters are
    dropped unread, whatever they are. *)
Theorem reference_path_round_trip :
  forall (c1 c2 : ascii) (keys : list string),
    keys <> [] ->
    forallb no_slash keys = true ->
    split_slash (string_from 2 (String c1 (String c2 (join_slash keys))))
    = keys.
Proof.
  intros c1 c2 keys Hne Hall. cbn [string_from].
  now apply split_slash_join.
Qed.

Lemma reference_path_round_trip_witness :
  split_slash (string_from 2 "#/components/schemas/Pet")
  = ["components"; "schemas"; "Pet"]%string.
Proof.
  refine (reference_path_round_trip "#"%char "/"%char
            ["components"; "schemas"; "Pet"]%string _ _).
  - discriminate.
  - reflexivity.
Defined.

Lemma dict_find_set {X : Type} k' k (v : X) d :
  dict_find k' (dict_set k v d)
  = if String.eqb k' k then Some v else dict_find k' d.
Proof.
  induction d as [|[k0 v0] d IH]; cbn [dict_set dict_find]; [reflexivity|].
  destruct (String.eqb_spec k k0) as [->|Hne]; cbn [dict_find].
  - destruct (String.eqb k' k0); reflexivity.
  - rewrite IH. destruct (String.eqb_spec k' k0) as [->|Hne']; [|reflexivity].
    destruct (String.eqb_spec k0 k) as [->|_]; [contradiction|reflexivity].
Qed.

Lemma keys_distinct_find {X : Type} k (v : X) d :
  keys_distinct (map fst ((k, v) :: d)) = true -> dict_find k d = None.
Proof.
  cbn [map fst keys_distinct]. intros H.
  apply andb_true_iff in H as [Hk _]. apply negb_true_iff in Hk.
  rewrite <- dict_has_keys in Hk. unfold dict_has in Hk.
  destruct (dict_find k d); [discriminate|reflexivity].
Qed.

Lemma dict_find_update {X : Type} k (other : list (string * X)) :
  keys_distinct (map fst other) = true ->
  forall d,
    dict_find k (dict_update d other)
    = match dict_find k other with
      | Some v => Some v
      | None => dict_find k d
      end.
Proof.
  unfold dict_update.
  induction other as [|[k0 v0] other IH]; intros Hd d; [reflexivity|].
  pose proof (keys_distinct_find _ _ _ Hd) as Hk0.
  cbn [map fst keys_distinct] in Hd. apply andb_true_iff in Hd as [_ Hd].
  cbn [fold_left fst snd dict_find]. rewrite (IH Hd), dict_find_set.
  destruct (String.eqb_spec k k0) as [->|Hne]; [|reflexivity].
  now rewrite Hk0.
Qed.

Lemma dict_find_del_other {X : Type} k' k (d : list (string * X)) :
  k' <> k -> dict_find k' (dict_del k d) = dict_find k' d.
Proof.
  intros Hne. induction d as [|[k0 v0] d IH]; cbn [dict_del dict_find];
    [reflexivity|].
  destruct (String.eqb_spec k k0) as [->|Hk]; cbn [dict_find].
  - destruct (String.eqb_spec k' k0); [contradiction|reflexivity].
  - now rewrite IH.
Qed.

Lemma dict_find_del_same {X : Type} k (d : list (string * X)) :
  keys_distinct (map fst d) = true -> dict_find k (dict_del k d) = None.
Proof.
  induction d as [|[k0 v0] d IH]; intros Hd; cbn [dict_del dict_find];
    [reflexivity|].
  destruct (String.eqb_spec k k0) as [->|Hk].
  - exact (keys_distinct_find _ _ _ Hd).
  - cbn [dict_find]. destruct (String.eqb_spec k k0); [contradiction|].
    apply IH. cbn [map fst keys_distinct] in Hd.
    now apply andb_true_iff in Hd as [_ Hd].
Qed.

Lemma dict_set_keys {X : Type} k (v : X) d :
  dict_has k d = true -> map fst (dict_set k v d) = map fst d.
Proof.
  unfold dict_has.
  induction d as [|[k0 v0] d IH]; cbn [dict_set dict_find]; [discriminate|].
  destruct (String.eqb k k0); [reflexivity|].
  intros H. cbn [map fst]. f_equal. exact (IH H).
Qed.

Lemma dict_set_new_keys {X : Type} k (v : X) d :
  dict_has k d = false -> map fst (dict_set k v d) = map fst d ++ [k].
Proof.
  unfold dict_has.
  induction d as [|[k0 v0] d IH]; cbn [dict_set dict_find]; [reflexivity|].
  destruct (String.eqb k k0); [discriminate|].
  intros H. cbn [map fst app]. f_equal. exact (IH H).
Qed.

Lemma keys_distinct_snoc ks k :
  keys_distinct ks = true -> existsb (String.eqb k) ks = false ->
  keys_distinct (ks ++ [k]) = true.
Proof.
  induction ks as [|k0 ks IH]; cbn [keys_distinct existsb app];
    [reflexivity|].
  intros Hd Hk. apply andb_true_iff in Hd as [H0 Hd].
  apply orb_false_iff in Hk as [Hne Hk].
  apply andb_true_iff. split; [|now apply IH].
  apply negb_true_iff in H0. apply negb_true_iff.
  rewrite existsb_app, H0. cbn [existsb].
  now rewrite String.eqb_sym, Hne.
Qed.

Lemma keys_distinct_set {X : Type} k (v : X) d :
  keys_distinct (map fst d) = true ->
  keys_distinct (map fst (dict_set k v d)) = true.
Proof.
  intros Hd. destruct (dict_has k d) eqn:Hk.
  - now rewrite dict_set_keys.
  - rewrite dict_set_new_keys by exact Hk.
    apply keys_distinct_snoc; [exact Hd|]. now rewrite <- dict_has_keys.
Qed.

Lemma keys_distinct_update {X : Type} (other d : list (string * X)) :
  keys_distinct (map fst d) = true ->
  keys_distinct (map fst (dict_update d other)) = true.
Proof.
  unfold dict_update. revert d.
  induction other as [|[k0 v0] other IH]; intros d Hd; [exact Hd|].
  cbn [fold_left fst snd]. apply IH. now apply keys_distinct_set.
Qed.

(** X15: the known-reference step of [_do_resolve].  When the path of the
    node's [$ref] leads to a mapping of the document, the call returns the
    node itself and changes no other object: the node has lost [$ref] (also
    when the fragment has a [$ref] of its own), every other key holds the
    fragment's value where the fragment has the key and the node's own value
    otherwise, and the values are the fragment's own, not copies. *)
Theorem known_reference_merges_fragment :
  forall (resolving : list object -> string -> result value) (spec : value)
         (fuel l f : nat) (h : list object)
         (items fitems : list (string * value)) (ref : string),
    h !! l = Some (ODict items) ->
    dict_find "$ref" items = Some (VStr ref) ->
    deep_get h spec (split_slash (string_from 2 ref)) = Ok (VLoc f) ->
    h !! f = Some (ODict fitems) ->
    keys_distinct (map fst items) = true ->
    keys_distinct (map fst fitems) = true ->
    exists merged,
      _do_resolve resolving spec (S fuel) (VLoc l) h
      = (<[l := ODict merged]> h, Ok (VLoc l))
      /\ dict_find "$ref" merged = None
      /\ forall k, k <> "$ref"%string ->
           dict_find k merged
           = match dict_find k fitems with
             | Some v => Some v
             | None => dict_find k items
             end.
Proof.
  intros resolving spec fuel l f h items fitems ref
         Hl Href Hget Hf Hitems Hfitems.
  exists (dict_del "$ref" (dict_update items fitems)).
  split; [|split].
  - cbn [_do_resolve]. rewrite Hl, Href, Hget.
    unfold update_items. rewrite Hf. reflexivity.
  - apply dict_find_del_same. now apply keys_distinct_update.
  - intros k Hk. rewrite dict_find_del_other by exact Hk.
    now apply dict_find_update.
Qed.

Lemma known_reference_merges_fragment_witness :
  exists merged,
    _do_resolve (fun _ r => Raise (RefResolutionError r)) (VLoc 2) 1 (VLoc 1)
      [ODict [("value", VInt 1); ("$ref", VStr "#/b")];
       ODict [("$ref", VStr "#/a"); ("title", VStr "t")];
       ODict [("a", VLoc 0); ("b", VLoc 1)]]
    = (<[1 := ODict merged]>
         [ODict [("value", VInt 1); ("$ref", VStr "#/b")];
          ODict [("$ref", VStr "#/a"); ("title", VStr "t")];
          ODict [("a", VLoc 0); ("b", VLoc 1)]],
       Ok (VLoc 1))
    /\ dict_find "$ref" merged = None
    /\ forall k, k <> "$ref"%string ->
         dict_find k merged
         = match dict_find k [("value", VInt 1); ("$ref", VStr "#/b")] with
           | Some v => Some v
           | None => dict_find k [("$ref", VStr "#/a"); ("title", VStr "t")]
           end.
Proof.
  apply (known_reference_merges_fragment
           (fun _ r => Raise (RefResolutionError r)) (VLoc 2) 0 1 0
           [ODict [("value", VInt 1); ("$ref", VStr "#/b")];
            ODict [("$ref", VStr "#/a"); ("title", VStr "t")];
            ODict [("a", VLoc 0); ("b", VLoc 1)]]
           [("$ref", VStr "#/a"); ("title", VStr "t")]
           [("value", VInt 1); ("$ref", VStr "#/b")] "#/a");
    reflexivity.
Defined.

Lemma split_slash_nonempty s : split_slash s <> [].
Proof.
  destruct s as [|c s]; simpl; [discriminate|].
  destruct (Ascii.eqb c "/"%char); [discriminate|].
  destruct (split_slash s); discriminate.
Qed.

Lemma dict_find_related {X Y : Type} (R : X -> Y -> Prop) k
      (d : list (string * X)) :
  forall (d' : list (string * Y)) y,
    map fst d = map fst d' ->
    Forall2 R (map snd d) (map snd d') ->
    dict_find k d' = Some y ->
    exists x, dict_find k d = Some x /\ R x y.
Proof.
  induction d as [|[k0 x0] d IH]; intros [|[k1 y1] d'] y Hk HR;
    cbn [map fst snd dict_find] in *; try discriminate.
  injection Hk as -> Hk.
  inversion HR as [|x0' y1' xs ys Hxy Hrest]; subst.
  destruct (String.eqb k k1).
  - intros [= <-]. eauto.
  - apply IH; assumption.
Qed.

(** X16: a document whose root is a mapping with a [$ref] that the document
    itself cannot answer (the first key of the path is no key of the root)
    resolves to what the resolver hands out for that reference: the object
    itself, neither copied nor traversed, with the sibling keys of [$ref]
    dropped; and when the resolver raises, [resolve_refs] raises the same
    exception.  The caller's objects stay as they were. *)
Theorem external_root_reference :
  forall (resolving : list object -> string -> result value) (fuel : nat)
         (kts : dict) (ref : string) (h : list object),
    dict_find "$ref" kts = Some (JStr ref) ->
    dict_has (hd EmptyString (split_slash (string_from 2 ref))) kts = false ->
    depth (JDict kts) < fuel ->
    exists h1,
      resolve_refs resolving fuel (snd (load (JDict kts) h))
                   (fst (load (JDict kts) h))
      = (h1, resolving h1 ref)
      /\ forall l, l < length (fst (load (JDict kts) h)) ->
                   h1 !! l = fst (load (JDict kts) h) !! l.
Proof.
  intros resolving fuel kts ref h Href Hpath Hd.
  destruct (deepcopy_load (JDict kts) h (fst (load (JDict kts) h)) [] fuel Hd)
    as (objs & m' & v' & Hcopy & Hrepr & _); [reflexivity|reflexivity|].
  unfold resolve_refs. rewrite Hcopy. cbn [fst].
  remember (fst (load (JDict kts) h)) as h0 eqn:Hh0.
  exists (h0 ++ objs). split; [|intros l Hl; now apply lookup_app_l].
  clear Hh0 Hcopy.
  inversion Hrepr as [| | | | |y kvs kts' Hy Hobj Hk Hvs]; subst.
  destruct (dict_find_related _ "$ref" kvs kts (JStr ref) Hk Hvs Href)
    as (x & Hx & Rx).
  inversion Rx; subst.
  destruct fuel as [|fuel]; [lia|].
  cbn [_do_resolve]. rewrite Hobj, Hx.
  destruct (split_slash (string_from 2 ref)) as [|p ps] eqn:Hsplit.
  { now destruct (split_slash_nonempty (string_from 2 ref)). }
  cbn [hd] in Hpath. cbn [deep_get]. rewrite Hobj.
  now rewrite (dict_find_absent p kvs kts Hk Hpath).
Qed.

Lemma external_root_reference_witness :
  exists h1,
    resolve_refs (fun _ r => Ok (VStr r)) 2
      (snd (load (JDict [("$ref", JStr "http://example.com/s.json");
                         ("title", JStr "t")]) []))
      (fst (load (JDict [("$ref", JStr "http://example.com/s.json");
                         ("title", JStr "t")]) []))
    = (h1, Ok (VStr "http://example.com/s.json"))
    /\ forall l,
         l < length (fst (load (JDict [("$ref",
                                        JStr "http://example.com/s.json");
                                       ("title", JStr "t")]) [])) ->
         h1 !! l
         = fst (load (JDict [("$ref", JStr "http://example.com/s.json");
                             ("title", JStr "t")]) []) !! l.
Proof.
  apply (external_root_reference (fun _ r => Ok (VStr r)) 2
           [("$ref", JStr "http://example.com/s.json"); ("title", JStr "t")]
           "http://example.com/s.json" []).
  - reflexivity.
  - reflexivity.
  - cbn. lia.
Defined.

Lemma shape_kept_refl h : shape_kept h h.
Proof.
  intros l. destruct (h !! l) as [[items|vs]|]; eauto.
Qed.

Lemma shape_kept_trans a b c :
  shape_kept a b -> shape_kept b c -> shape_kept a c.
Proof.
  intros Hab Hbc l. specialize (Hab l). specialize (Hbc l).
  destruct (a !! l) as [[items|vs]|]; [| |exact I].
  - intros Href. destruct (Hab Href) as (items' & Hb & Hk).
    rewrite Hb in Hbc.
    destruct Hbc as (items'' & Hc & Hk').
    { rewrite dict_has_keys, Hk, <- dict_has_keys. exact Href. }
    exists items''. split; congruence.
  - destruct Hab as (vs' & Hb & Hlen). rewrite Hb in Hbc.
    destruct Hbc as (vs'' & Hc & Hlen'). exists vs''. split; congruence.
Qed.

Lemma shape_kept_insert_ref h l items o :
  h !! l = Some (ODict items) -> dict_has "$ref" items = true ->
  shape_kept h (<[l := o]> h).
Proof.
  intros Hl Href l'. destruct (Nat.eq_dec l l') as [<-|Hne].
  - rewrite Hl. intros H. congruence.
  - rewrite list_lookup_insert_ne by exact Hne. apply shape_kept_refl.
Qed.

Lemma lookup_dict_has {X : Type} (d : list (string * X)) i k v :
  d !! i = Some (k, v) -> dict_has k d = true.
Proof.
  unfold dict_has. revert i.
  induction d as [|[k0 v0] d IH]; intros [|i] H; try discriminate;
    cbn [dict_find].
  - injection H as -> ->. now rewrite String.eqb_refl.
  - destruct (String.eqb k k0); [reflexivity|]. exact (IH i H).
Qed.

Lemma shape_kept_setitem h0 h1 l now k v :
  shape_kept h0 h1 -> h0 !! l = Some (ODict now) -> dict_has k now = true ->
  shape_kept h0 (heap_setitem h1 l k v).
Proof.
  intros H Hnow Hk. unfold heap_setitem.
  destruct (h1 !! l) as [[items1|vs1]|] eqn:H1; try exact H.
  intros l'. destruct (Nat.eq_dec l l') as [<-|Hne].
  - rewrite Hnow. intros Href. specialize (H l). rewrite Hnow in H.
    destruct (H Href) as (items' & Hl1 & Hkeys).
    rewrite H1 in Hl1. injection Hl1 as <-.
    exists (dict_set k v items1). split.
    + apply list_lookup_insert_eq. exact (lookup_lt_Some _ _ _ H1).
    + rewrite dict_set_keys; [exact Hkeys|].
      now rewrite dict_has_keys, Hkeys, <- dict_has_keys.
  - rewrite list_lookup_insert_ne by exact Hne. exact (H l').
Qed.

Lemma shape_kept_setlist h0 h1 l i v :
  shape_kept h0 h1 ->
  shape_kept h0 match h1 !! l with
                | Some (OList now') => <[l := OList (<[i := v]> now')]> h1
                | _ => h1
                end.
Proof.
  intros H. destruct (h1 !! l) as [[items1|vs1]|] eqn:H1; try exact H.
  intros l'. destruct (Nat.eq_dec l l') as [<-|Hne].
  - specialize (H l). destruct (h0 !! l) as [[items|vs]|]; [| |exact I].
    + intros Href. destruct (H Href) as (items' & Hl1 & _). congruence.
    + destruct H as (vs' & Hl1 & Hlen).
      rewrite H1 in Hl1. injection Hl1 as <-.
      exists (<[i := v]> vs1). split.
      * apply list_lookup_insert_eq. exact (lookup_lt_Some _ _ _ H1).
      * now rewrite length_insert.
  - rewrite list_lookup_insert_ne by exact Hne. exact (H l').
Qed.

Lemma for_each_shape {X : Type} (xs : list X) body :
  (forall x h, shape_kept h (fst (body x h))) ->
  forall h, shape_kept h (fst (for_each xs body h)).
Proof.
  intros Hbody. induction xs as [|x xs IH]; intros h; simpl;
    [apply shape_kept_refl|].
  specialize (Hbody x h).
  destruct (body x h) as [h' [e|]]; cbn [fst] in *; [exact Hbody|].
  exact (shape_kept_trans _ _ _ Hbody (IH h')).
Qed.

(** X17: what [_do_resolve] never does to the objects it is given.  Whatever
    the node, the resolver and the outcome (a result or an exception), every
    mapping that had no [$ref] key before the call is still a mapping with
    the same keys in the same order, and every list is still a list of the
    same length: the traversal only replaces values in place. *)
Theorem do_resolve_keeps_shape :
  forall (resolving : list object -> string -> result value) (spec : value)
         (fuel : nat) (node : value) (h : list object),
    shape_kept h (fst (_do_resolve resolving spec fuel node h)).
Proof.
  intros resolving spec fuel.
  induction fuel as [|fuel IH]; intros node h; cbn [_do_resolve];
    [apply shape_kept_refl|].
  destruct node as [| | | |l]; try apply shape_kept_refl.
  destruct (h !! l) as [[items|items]|] eqn:Hobj; [| |apply shape_kept_refl].
  - destruct (dict_find "$ref" items) as [[| | |ref|]|] eqn:Href;
      try apply shape_kept_refl.
    + destruct (deep_get h spec (split_slash (string_from 2 ref)))
        as [found|e] eqn:Hdg.
      * destruct (update_items h found) as [pairs stop].
        assert (Hhas : dict_has "$ref" items = true)
          by (unfold dict_has; now rewrite Href).
        destruct stop as [e|]; cbn [fst];
          exact (shape_kept_insert_ref _ _ _ _ Hobj Hhas).
      * destruct e; apply shape_kept_refl.
    + match goal with
      | |- context [for_each ?xs ?body h] =>
          pose proof (for_each_shape xs body) as Hfe;
          destruct (for_each xs body h) as [h' stop] eqn:Hrun
      end.
      assert (Hk : shape_kept h h').
      { change h' with (fst (h', stop)). rewrite <- Hrun. apply Hfe.
        intros i hx.
        destruct (hx !! l) as [[now|now]|] eqn:Hnow;
          try apply shape_kept_refl.
        destruct (now !! i) as [[k v]|] eqn:Hi; try apply shape_kept_refl.
        pose proof (IH v hx) as Hrec.
        destruct (_do_resolve resolving spec fuel v hx) as [h1 [v'|e']];
          cbn [fst] in *; [|exact Hrec].
        exact (shape_kept_setitem _ _ _ _ _ _ Hrec Hnow
                 (lookup_dict_has _ _ _ _ Hi)). }
      destruct stop; exact Hk.
  - match goal with
    | |- context [for_each ?xs ?body h] =>
        pose proof (for_each_shape xs body) as Hfe;
        destruct (for_each xs body h) as [h' stop] eqn:Hrun
    end.
    assert (Hk : shape_kept h h').
    { change h' with (fst (h', stop)). rewrite <- Hrun. apply Hfe.
      intros i hx.
      destruct (hx !! l) as [[now|now]|] eqn:Hnow;
        try apply shape_kept_refl.
      destruct (now !! i) as [v|] eqn:Hi; try apply shape_kept_refl.
      pose proof (IH v hx) as Hrec.
      destruct (_do_resolve resolving spec fuel v hx) as [h1 [v'|e']];
        cbn [fst] in *; [|exact Hrec].
      now apply shape_kept_setlist. }
    destruct stop; exact Hk.
Qed.

(* ===================================================================== *)
(** * [resolve_refs] and the caller's document                             *)
(* ===================================================================== *)

(** ** Trees laid out without sharing *)

Lemma size_list ts : size (JList ts) = S (sizes ts).
Proof. reflexivity. Qed.

Lemma size_dict kts : size (JDict kts) = S (sizes (map snd kts)).
Proof. unfold sizes. rewrite map_map. reflexivity. Qed.

Lemma sizes_cons t ts : sizes (t :: ts) = size t + sizes ts.
Proof. reflexivity. Qed.

Lemma sizes_firstn_le ts : forall i, sizes (firstn i ts) <= sizes ts.
Proof.
  induction ts as [|t ts IH]; intros [|i]; cbn [firstn];
    rewrite ?sizes_cons; try (unfold sizes; simpl; lia).
  specialize (IH i). lia.
Qed.

Lemma sizes_firstn_S ts :
  forall i t,
    ts !! i = Some t ->
    sizes (firstn (S i) ts) = sizes (firstn i ts) + size t
    /\ sizes (firstn i ts) + size t <= sizes ts.
Proof.
  induction ts as [|t0 ts IH]; intros [|i] t H; try discriminate.
  - injection H as ->. cbn [firstn]. rewrite !sizes_cons.
    unfold sizes at 1 2. simpl. lia.
  - destruct (IH i t H) as [E L].
    change (firstn (S (S i)) (t0 :: ts)) with (t0 :: firstn (S i) ts).
    change (firstn (S i) (t0 :: ts)) with (t0 :: firstn i ts).
    rewrite !sizes_cons. lia.
Qed.

Lemma lookup_map {X Y : Type} (f : X -> Y) xs :
  forall i, map f xs !! i = option_map f (xs !! i).
Proof.
  induction xs as [|x xs IH]; intros [|i]; try reflexivity. exact (IH i).
Qed.

Lemma laid_seq_length P y ts vs :
  laid_seq P y ts vs -> length vs = length ts.
Proof. induction 1; simpl; congruence. Qed.

Lemma laid_seq_lookup P s ts vs :
  laid_seq P s ts vs ->
  forall i t v,
    ts !! i = Some t -> vs !! i = Some v ->
    P (s + sizes (firstn i ts)) t v.
Proof.
  induction 1 as [y|y t0 ts v0 vs H0 _ IH]; intros [|i] t v Ht Hv;
    try discriminate.
  - injection Ht as <-. injection Hv as <-.
    cbn [firstn]. unfold sizes. simpl. now rewrite Nat.add_0_r.
  - change (firstn (S i) (t0 :: ts)) with (t0 :: firstn i ts).
    rewrite sizes_cons, Nat.add_assoc. exact (IH i t v Ht Hv).
Qed.

Lemma laid_seq_ext_items h h' ts :
  Forall (fun t => forall y v,
            (forall l, y <= l < y + size t -> h' !! l = h !! l) ->
            laid h y t v -> laid h' y t v) ts ->
  forall s vs,
    (forall l, s <= l < s + sizes ts -> h' !! l = h !! l) ->
    laid_seq (laid h) s ts vs -> laid_seq (laid h') s ts vs.
Proof.
  induction 1 as [|t ts Ht _ IH]; intros s vs Hag Hs;
    inversion Hs as [|y t' ts' v vs' Hv Hrest]; subst; constructor.
  - apply Ht; [|exact Hv]. intros l Hl. apply Hag. rewrite sizes_cons. lia.
  - apply IH; [|exact Hrest]. intros l Hl. apply Hag.
    rewrite sizes_cons. lia.
Qed.

(** [laid] looks at the objects of its range only. *)
Lemma laid_ext t :
  forall h h' y v,
    (forall l, y <= l < y + size t -> h' !! l = h !! l) ->
    laid h y t v -> laid h' y t v.
Proof.
  induction t as [| | | |ts IH|kts IH] using json_ind;
    intros h h' y v Hag Hl;
    inversion Hl as [| | | |y' ts' vs Hobj Hseq|y' kts' kvs Hobj Hk Hseq];
    subst; try constructor.
  - rewrite size_list in Hag.
    apply laid_list with (vs := vs); [rewrite Hag; [exact Hobj|lia]|].
    apply (laid_seq_ext_items h h' ts); [|intros l Hl'; apply Hag; lia|
                                          exact Hseq].
    eapply List.Forall_impl; [|exact IH]. intros t Ht y0 v0. apply Ht.
  - rewrite size_dict in Hag.
    apply laid_dict with (kvs := kvs);
      [rewrite Hag; [exact Hobj|lia]|exact Hk|].
    apply (laid_seq_ext_items h h' (map snd kts));
      [|intros l Hl'; apply Hag; lia|exact Hseq].
    eapply List.Forall_impl; [|exact IH]. intros t Ht y0 v0. apply Ht.
Qed.

Lemma laid_seq_ext h h' ts s vs :
  (forall l, s <= l < s + sizes ts -> h' !! l = h !! l) ->
  laid_seq (laid h) s ts vs -> laid_seq (laid h') s ts vs.
Proof.
  apply laid_seq_ext_items. apply List.Forall_forall.
  intros t _ y v. apply laid_ext.
Qed.

Lemma dict_set_at {X : Type} (d : list (string * X)) :
  forall i k v v',
    keys_distinct (map fst d) = true -> d !! i = Some (k, v) ->
    dict_set k v' d = <[i := (k, v')]> d.
Proof.
  induction d as [|[k0 v0] d IH]; intros [|i] k v v' Hd H;
    try discriminate; cbn [dict_set].
  - injection H as -> ->. now rewrite String.eqb_refl.
  - cbn [map fst keys_distinct] in Hd.
    apply andb_true_iff in Hd as [Hk Hd]. apply negb_true_iff in Hk.
    change (((k0, v0) :: d) !! S i) with (d !! i) in H.
    assert (Hne : String.eqb k0 k = false).
    { apply (existsb_false_In _ _ _ Hk).
      change k with (fst (k, v)). apply in_map. exact (lookup_In _ _ _ H). }
    rewrite String.eqb_sym, Hne. cbn. f_equal. exact (IH i k v v' Hd H).
Qed.

Lemma well_formed_item ts i t :
  forallb well_formed ts = true -> ts !! i = Some t -> well_formed t = true.
Proof.
  intros H Ht. rewrite forallb_forall in H. apply H.
  exact (lookup_In _ _ _ Ht).
Qed.

(** ** The loops of [_do_resolve], position by position *)

Lemma for_each_inv (P : nat -> list object -> Prop) (Q : list object -> Prop)
      body :
  forall n a h,
    (forall i hx, a <= i < a + n -> P i hx ->
                  match body i hx with
                  | (h', None) => P (S i) h'
                  | (h', Some _) => Q h'
                  end) ->
    (forall hx, P (a + n) hx -> Q hx) ->
    P a h -> Q (fst (for_each (seq a n) body h)).
Proof.
  induction n as [|n IH]; intros a h Hstep Hend Ha; cbn [seq for_each].
  - apply Hend. now rewrite Nat.add_0_r.
  - pose proof (Hstep a h ltac:(lia) Ha) as Hnow.
    destruct (body a h) as [h' [e|]]; [exact Hnow|].
    apply IH; [|      |exact Hnow].
    + intros i hx Hi. apply Hstep. lia.
    + intros hx Hx. apply Hend. now replace (a + S n) with (S a + n) by lia.
Qed.

(** [_do_resolve] on a tree laid out without sharing writes to the objects
    of that tree only, whatever the resolver hands out and whatever [spec]
    is: the objects it is given by the resolver are put in place and never
    visited. *)
Lemma do_resolve_frame resolving spec fuel :
  forall t y v h,
    well_formed t = true -> laid h y t v ->
    forall l, ~ (y <= l < y + size t) ->
              fst (_do_resolve resolving spec fuel v h) !! l = h !! l.
Proof.
  induction fuel as [|fuel IH]; intros t y v h Hwf Hlaid l Hout;
    cbn [_do_resolve]; [reflexivity|].
  inversion Hlaid as [| | | |y' ts vs Hobj Hseq|y' kts kvs Hobj Hk Hseq];
    subst; try reflexivity.
  - (* a list *)
    rewrite Hobj. rewrite size_list in Hout.
    cbn [well_formed] in Hwf.
    pose proof (laid_seq_length _ _ _ _ Hseq) as Hlen.
    set (P := fun (i : nat) (hx : list object) =>
                (forall l, l < y \/ S y + sizes (firstn i ts) <= l ->
                           hx !! l = h !! l)
                /\ exists now,
                     hx !! y = Some (OList now)
                     /\ forall j, i <= j -> now !! j = vs !! j).
    set (Q := fun hx : list object =>
                forall l, ~ (y <= l < S y + sizes ts) -> hx !! l = h !! l).
    match goal with
    | |- context [for_each ?xs ?body h] =>
        pose proof (for_each_inv P Q body (length vs) 0 h) as Hfe;
        destruct (for_each xs body h) as [h' stop] eqn:Hrun
    end.
    assert (HQ : Q h').
    { apply Hfe.
      - intros i hx Hi (Hag & now & Hnow & Hrest).
        rewrite Hnow.
        destruct (lookup_lt_is_Some_2 vs i ltac:(lia)) as [x Hx].
        rewrite (Hrest i (le_n i)), Hx.
        destruct (lookup_lt_is_Some_2 ts i ltac:(lia)) as [t Ht].
        destruct (sizes_firstn_S ts i t Ht) as [ES EL].
        pose proof (laid_seq_lookup _ _ _ _ Hseq i t x Ht Hx) as Hchild.
        assert (Hchild' : laid hx (S y + sizes (firstn i ts)) t x).
        { eapply laid_ext; [|exact Hchild]. intros l0 Hl0. apply Hag. lia. }
        pose proof (IH t _ x hx (well_formed_item ts i t Hwf Ht) Hchild')
          as Hrec.
        destruct (_do_resolve resolving spec fuel x hx) as [h1 [v'|e]];
          cbn [fst] in Hrec.
        + assert (H1 : h1 !! y = Some (OList now)).
          { rewrite Hrec by lia. exact Hnow. }
          rewrite H1. split.
          * intros l0 Hl0. rewrite list_lookup_insert_ne by lia.
            rewrite Hrec by lia. apply Hag. lia.
          * exists (<[i := v']> now). split.
            -- apply list_lookup_insert_eq. exact (lookup_lt_Some _ _ _ H1).
            -- intros j Hj. rewrite list_lookup_insert_ne by lia.
               apply Hrest. lia.
        + intros l0 Hl0. rewrite Hrec by lia. apply Hag. lia.
      - intros hx (Hag & _) l0 Hl0. apply Hag.
        pose proof (sizes_firstn_le ts (0 + length vs)). lia.
      - split; [reflexivity|]. exists vs. split; [exact Hobj|reflexivity]. }
    destruct stop; cbn [fst]; apply HQ; lia.
  - (* a mapping *)
    rewrite Hobj. rewrite size_dict in Hout.
    cbn [well_formed] in Hwf. apply andb_true_iff in Hwf as [Hkeys Hwf].
    assert (Hwf' : forallb well_formed (map snd kts) = true).
    { rewrite forallb_forall in Hwf. apply forallb_forall.
      intros t Ht. apply in_map_iff in Ht as (kt & <- & Hkt). auto. }
    destruct (dict_find "$ref" kvs) as [[| | |ref|]|] eqn:Href;
      try reflexivity.
    + (* a reference: only the node itself is written *)
      destruct (deep_get h spec (split_slash (string_from 2 ref)))
        as [found|e].
      * destruct (update_items h found) as [pairs [e|]]; cbn [fst];
          apply list_lookup_insert_ne; lia.
      * destruct e; reflexivity.
    + (* no [$ref]: the values, one by one *)
      pose proof (laid_seq_length _ _ _ _ Hseq) as Hlen.
      rewrite !length_map in Hlen.
      set (ts := map snd kts) in *.
      set (P := fun (i : nat) (hx : list object) =>
                  (forall l, l < y \/ S y + sizes (firstn i ts) <= l ->
                             hx !! l = h !! l)
                  /\ exists now,
                       hx !! y = Some (ODict now)
                       /\ map fst now = map fst kvs
                       /\ forall j, i <= j -> now !! j = kvs !! j).
      set (Q := fun hx : list object =>
                  forall l, ~ (y <= l < S y + sizes ts) -> hx !! l = h !! l).
      match goal with
      | |- context [for_each ?xs ?body h] =>
          pose proof (for_each_inv P Q body (length kvs) 0 h) as Hfe;
          destruct (for_each xs body h) as [h' stop] eqn:Hrun
      end.
      assert (HQ : Q h').
      { apply Hfe.
        - intros i hx Hi (Hag & now & Hnow & Hnk & Hrest).
          rewrite Hnow.
          destruct (lookup_lt_is_Some_2 kvs i ltac:(lia)) as [[k x] Hx].
          pose proof (Hrest i (le_n i)) as Hi'. rewrite Hx in Hi'.
          rewrite Hi'.
          assert (Hx' : map snd kvs !! i = Some x)
            by (rewrite lookup_map, Hx; reflexivity).
          destruct (lookup_lt_is_Some_2 ts i) as [t Ht].
          { unfold ts. rewrite length_map. lia. }
          destruct (sizes_firstn_S ts i t Ht) as [ES EL].
          pose proof (laid_seq_lookup _ _ _ _ Hseq i t x Ht Hx') as Hchild.
          assert (Hchild' : laid hx (S y + sizes (firstn i ts)) t x).
          { eapply laid_ext; [|exact Hchild]. intros l0 Hl0. apply Hag.
            lia. }
          pose proof (IH t _ x hx (well_formed_item ts i t Hwf' Ht) Hchild')
            as Hrec.
          destruct (_do_resolve resolving spec fuel x hx) as [h1 [v'|e]];
            cbn [fst] in Hrec.
          + assert (H1 : h1 !! y = Some (ODict now)).
            { rewrite Hrec by lia. exact Hnow. }
            unfold heap_setitem. rewrite H1.
            assert (Hd : keys_distinct (map fst now) = true)
              by (rewrite Hnk, Hk; exact Hkeys).
            rewrite (dict_set_at now i k x v' Hd Hi'). split.
            * intros l0 Hl0. rewrite list_lookup_insert_ne by lia.
              rewrite Hrec by lia. apply Hag. lia.
            * exists (<[i := (k, v')]> now). split; [|split].
              -- apply list_lookup_insert_eq.
                 exact (lookup_lt_Some _ _ _ H1).
              -- rewrite <- (dict_set_at now i k x v' Hd Hi'), <- Hnk.
                 apply dict_set_keys. exact (lookup_dict_has _ _ _ _ Hi').
              -- intros j Hj. rewrite list_lookup_insert_ne by lia.
                 apply Hrest. lia.
          + intros l0 Hl0. rewrite Hrec by lia. apply Hag. lia.
        - intros hx (Hag & _) l0 Hl0. apply Hag.
          pose proof (sizes_firstn_le ts (0 + length kvs)). lia.
        - split; [reflexivity|]. exists kvs.
          split; [exact Hobj|split; reflexivity]. }
      destruct stop; cbn [fst]; apply HQ; lia.
Qed.

(** ** The copy of a loaded tree has no sharing *)

Lemma copy_all_laid ts :
  Forall
    (fun t => forall h H m fuel,
       depth t < fuel ->
       (forall l, length h <= l < length (fst (load t h)) ->
                  memo_find l m = None) ->
       (forall l, length h <= l < length (fst (load t h)) ->
                  H !! l = fst (load t h) !! l) ->
       exists objs m' v',
         deepcopy fuel (snd (load t h)) (H, m) = (H ++ objs, m', Ok v')
         /\ length objs = size t
         /\ laid (H ++ objs) (length H) t v'
         /\ (forall l, ~ length h <= l < length (fst (load t h)) ->
                       memo_find l m' = memo_find l m)) ts ->
  forall h H m fuel,
    Forall (fun t => depth t < fuel) ts ->
    (forall l, length h <= l < length (fst (load_all load ts h)) ->
               memo_find l m = None) ->
    (forall l, length h <= l < length (fst (load_all load ts h)) ->
               H !! l = fst (load_all load ts h) !! l) ->
    exists objs m' vs',
      copy_all (deepcopy fuel) (snd (load_all load ts h)) (H, m)
      = (H ++ objs, m', Ok vs')
      /\ length objs = sizes ts
      /\ laid_seq (laid (H ++ objs)) (length H) ts vs'
      /\ (forall l, ~ length h <= l < length (fst (load_all load ts h)) ->
                    memo_find l m' = memo_find l m).
Proof.
  induction 1 as [|t ts Ht _ IH]; intros h H m fuel Hd Hm HH.
  - exists [], m, []. simpl. rewrite app_nil_r.
    repeat split; auto. constructor.
  - rewrite load_all_cons in *. cbn [fst snd] in *.
    destruct (load_extends t h) as [o1 E1].
    destruct (load_all_extends' ts (fst (load t h))) as (o2 & E2 & _).
    assert (L1 : length (fst (load t h)) = length h + length o1)
      by (rewrite E1; apply length_app).
    assert (L2 : length (fst (load_all load ts (fst (load t h))))
                 = length h + length o1 + length o2)
      by (rewrite E2, length_app; lia).
    assert (Hpre : forall l, l < length (fst (load t h)) ->
                fst (load_all load ts (fst (load t h))) !! l
                = fst (load t h) !! l).
    { intros l Hl. rewrite E2. now apply lookup_app_l. }
    inversion Hd as [|? ? Hdt Hdts]; subst.
    destruct (Ht h H m fuel Hdt) as (objs1 & m1 & v1 & C1 & S1 & R1 & M1).
    { intros l Hl. apply Hm. lia. }
    { intros l Hl. rewrite HH by lia. apply Hpre. lia. }
    destruct (IH (fst (load t h)) (H ++ objs1) m1 fuel Hdts)
      as (objs2 & m2 & vs2 & C2 & S2 & R2 & M2).
    { intros l Hl. rewrite M1 by lia. apply Hm. lia. }
    { intros l Hl.
      assert (Hlt : l < length H).
      { apply lookup_lt_is_Some. rewrite HH by lia.
        apply lookup_lt_is_Some. lia. }
      rewrite lookup_app_l by exact Hlt. apply HH. lia. }
    exists (objs1 ++ objs2), m2, (v1 :: vs2).
    cbn [copy_all]. rewrite C1, C2. rewrite <- app_assoc.
    split; [reflexivity|]. split; [|split].
    + rewrite length_app, sizes_cons. lia.
    + rewrite length_app in R2. rewrite app_assoc. constructor.
      * eapply laid_ext; [|exact R1]. intros l Hl.
        apply lookup_app_l. rewrite length_app. lia.
      * now rewrite <- S1.
    + intros l Hl. rewrite M2 by lia. apply M1. lia.
Qed.

(** [deepcopy] of a loaded tree whose objects are not in the memo: the copy
    is laid out behind [H], without sharing. *)
Lemma deepcopy_laid t :
  forall h H m fuel,
    depth t < fuel ->
    (forall l, length h <= l < length (fst (load t h)) ->
               memo_find l m = None) ->
    (forall l, length h <= l < length (fst (load t h)) ->
               H !! l = fst (load t h) !! l) ->
    exists objs m' v',
      deepcopy fuel (snd (load t h)) (H, m) = (H ++ objs, m', Ok v')
      /\ length objs = size t
      /\ laid (H ++ objs) (length H) t v'
      /\ (forall l, ~ length h <= l < length (fst (load t h)) ->
                    memo_find l m' = memo_find l m).
Proof.
  induction t as [| | | |ts IH|kts IH] using json_ind;
    intros h H m fuel Hd Hm HH.
  1-4: exists [], m; eexists; rewrite app_nil_r;
    (split; [destruct fuel; reflexivity
            |split; [reflexivity|split; [constructor|reflexivity]]]).
  - rewrite load_list in *. cbn [fst snd] in *.
    destruct (load_all_extends' ts h) as (o & E & Lvs).
    remember (fst (load_all load ts h)) as hn eqn:Ehn.
    remember (snd (load_all load ts h)) as vs eqn:Evs.
    assert (Ln : length hn = length h + length o)
      by (rewrite E; apply length_app).
    assert (Lh : length (hn ++ [OList vs]) = S (length hn))
      by (rewrite length_app; simpl; lia).
    rewrite Lh in Hm, HH.
    destruct fuel as [|fuel]; [lia|]. cbn [depth] in Hd.
    assert (Hmiss : memo_find (length hn) m = None) by (apply Hm; lia).
    assert (Hobj : H !! length hn = Some (OList vs)).
    { rewrite HH by lia. now apply list_lookup_middle. }
    destruct (copy_all_laid ts IH h (H ++ [OList []])
                ((length hn, length H) :: m) fuel)
      as (objs & m1 & vs' & C & S1 & R & M).
    + apply depth_items. lia.
    + rewrite <- Ehn. intros l Hl. cbn [memo_find].
      destruct (Nat.eqb_spec l (length hn)); [lia|]. apply Hm. lia.
    + rewrite <- Ehn. intros l Hl.
      assert (Hlt : l < length H).
      { apply lookup_lt_is_Some. rewrite HH by lia.
        apply lookup_lt_is_Some. lia. }
      rewrite lookup_app_l by exact Hlt. rewrite HH by lia.
      apply lookup_app_l. lia.
    + rewrite <- Ehn, <- Evs in *.
      exists (OList vs' :: objs), m1, (VLoc (length H)).
      cbn [deepcopy fst snd]. rewrite Hmiss, Hobj, C. cbn [fst snd].
      rewrite insert_placeholder.
      rewrite length_app in R; cbn [length] in R.
      split; [reflexivity|]. split; [|split].
      * cbn [length]. rewrite size_list. lia.
      * apply laid_list with (vs := vs'); [now apply list_lookup_middle|].
        replace (S (length H)) with (length H + 1) by lia.
        eapply laid_seq_ext; [|exact R].
        intros l Hl. rewrite <- (insert_placeholder H objs _ (OList [])).
        apply list_lookup_insert_ne. lia.
      * intros l Hl. rewrite M by lia. cbn [memo_find].
        destruct (Nat.eqb_spec l (length hn)); [lia|reflexivity].
  - rewrite load_dict in *. cbn [fst snd] in *.
    destruct (load_all_extends' (map snd kts) h) as (o & E & Lvs).
    remember (fst (load_all load (map snd kts) h)) as hn eqn:Ehn.
    remember (snd (load_all load (map snd kts) h)) as vs eqn:Evs.
    rewrite length_map in Lvs.
    assert (Lk : length (map fst kts) = length vs)
      by (rewrite length_map; lia).
    assert (Ln : length hn = length h + length o)
      by (rewrite E; apply length_app).
    assert (Lh : length (hn ++ [ODict (combine (map fst kts) vs)])
                 = S (length hn))
      by (rewrite length_app; simpl; lia).
    rewrite Lh in Hm, HH.
    destruct fuel as [|fuel]; [lia|]. cbn [depth] in Hd.
    rewrite <- map_map in Hd.
    assert (Hmiss : memo_find (length hn) m = None) by (apply Hm; lia).
    assert (Hobj : H !! length hn = Some (ODict (combine (map fst kts) vs))).
    { rewrite HH by lia. now apply list_lookup_middle. }
    destruct (copy_all_laid (map snd kts) IH h (H ++ [ODict []])
                ((length hn, length H) :: m) fuel)
      as (objs & m1 & vs' & C & S1 & R & M).
    + apply depth_items. lia.
    + rewrite <- Ehn. intros l Hl. cbn [memo_find].
      destruct (Nat.eqb_spec l (length hn)); [lia|]. apply Hm. lia.
    + rewrite <- Ehn. intros l Hl.
      assert (Hlt : l < length H).
      { apply lookup_lt_is_Some. rewrite HH by lia.
        apply lookup_lt_is_Some. lia. }
      rewrite lookup_app_l by exact Hlt. rewrite HH by lia.
      apply lookup_app_l. lia.
    + rewrite <- Ehn, <- Evs in *.
      assert (Lvs' : length (map fst kts) = length vs').
      { rewrite (laid_seq_length _ _ _ _ R). now rewrite !length_map. }
      exists (ODict (combine (map fst kts) vs') :: objs), m1,
             (VLoc (length H)).
      cbn [deepcopy fst snd]. rewrite Hmiss, Hobj.
      rewrite (map_snd_combine _ _ Lk), (map_fst_combine _ _ Lk), C.
      cbn [fst snd]. rewrite insert_placeholder.
      rewrite length_app in R; cbn [length] in R.
      split; [reflexivity|]. split; [|split].
      * cbn [length]. rewrite size_dict. lia.
      * apply laid_dict with (kvs := combine (map fst kts) vs').
        { now apply list_lookup_middle. }
        { now apply map_fst_combine. }
        rewrite (map_snd_combine _ _ Lvs').
        replace (S (length H)) with (length H + 1) by lia.
        eapply laid_seq_ext; [|exact R].
        intros l Hl. rewrite <- (insert_placeholder H objs _ (ODict [])).
        apply list_lookup_insert_ne. lia.
      * intros l Hl. rewrite M by lia. cbn [memo_find].
        destruct (Nat.eqb_spec l (length hn)); [lia|reflexivity].
Qed.

(** C8: [resolve_refs] never changes the caller's document.  For every
    document that is a JSON tree, loaded as Python objects into any heap,
    and for every resolver, whatever it hands out (objects of the store,
    objects of the caller's own document, objects of the copy) and whether
    it fails: after [resolve_refs] has returned or raised, every object
    that was there before the call is as it was, and the caller's document
    still reads as the same tree.  The fuel only has to cover the deep copy
    of the document. *)
Theorem resolve_refs_keeps_original :
  forall (resolving : list object -> string -> result value) (t : json)
         (h : list object) (fuel : nat),
    well_formed t = true ->
    depth t < fuel ->
    (forall l, l < length (fst (load t h)) ->
               fst (resolve_refs resolving fuel (snd (load t h))
                                 (fst (load t h))) !! l
               = fst (load t h) !! l)
    /\ read fuel
            (fst (resolve_refs resolving fuel (snd (load t h))
                               (fst (load t h))))
            (snd (load t h))
       = Some t.
Proof.
  intros resolving t h fuel Hwf Hd.
  assert (Hframe : forall l, l < length (fst (load t h)) ->
             fst (resolve_refs resolving fuel (snd (load t h))
                               (fst (load t h))) !! l
             = fst (load t h) !! l).
  { destruct (deepcopy_laid t h (fst (load t h)) [] fuel Hd)
      as (objs & m' & v' & C & S1 & R & _); [reflexivity|reflexivity|].
    unfold resolve_refs. rewrite C. cbn [fst].
    intros l Hl.
    rewrite (do_resolve_frame resolving v' fuel t _ v' _ Hwf R) by lia.
    now apply lookup_app_l. }
  split; [exact Hframe|].
  apply (repr_read t _ (length h) (length (fst (load t h)))); [|exact Hd].
  eapply repr_mono; [| | |exact (load_repr t h)]; try lia.
  intros l Hl. apply Hframe. lia.
Qed.

Lemma resolve_refs_keeps_original_witness :
  (forall l,
      l < length (fst (load mixed_ref_document [])) ->
      fst (resolve_refs (store_of "http://example.com/s.json" (VLoc 1)) 4
             (snd (load mixed_ref_document []))
             (fst (load mixed_ref_document []))) !! l
      = fst (load mixed_ref_document []) !! l)
  /\ read 4
          (fst (resolve_refs (store_of "http://example.com/s.json" (VLoc 1))
                  4 (snd (load mixed_ref_document []))
                  (fst (load mixed_ref_document []))))
          (snd (load mixed_ref_document []))
     = Some mixed_ref_document.
Proof.
  apply (resolve_refs_keeps_original
           (store_of "http://example.com/s.json" (VLoc 1))
           mixed_ref_document [] 4).
  - reflexivity.
  - cbn. lia.
Defined.
